(** * GreenPath page script ([file.js])

    A shallow embedding of [file.js]: the hero carousel (lines 76-174) and
    the trips calculator (lines 215-318), the theme toggle (lines 24-42),
    [debounce] (lines 47-50), the observer that loads deferred images
    (lines 55-71), the video handler (lines 202-209), the generated style
    (lines 323-331) and the quiz feedback (lines 336-346), together with
    the part of the JavaScript platform they rest on: IEEE-754 binary64
    numbers, number/string conversions, property lookup through
    [Object.prototype], JSON serialisation and [localStorage].

    - JavaScript numbers are [spec_float] at precision 53 / emax 1024, with
      the arithmetic of [SpecFloat] (round to nearest, ties to even).
    - JavaScript strings are [string]; text outside ASCII is read as UTF-8.
    - Slide indices of the carousel are integers well inside the exact
      range of binary64, and are modelled in [Z]; [%] is [Z.rem].
    - An array object lives in a heap of arrays, so that [trips.slice()]
      and [trips = []] create new objects while [trips.push] updates one
      in place. The records in it are never changed by the script and are
      plain values.
    - A stored string is represented by what [JSON.parse] makes of it.

    Left out: the tips strip, whose effect is the browser's own smooth
    scrolling, and a storage that refuses to read or write. *)

From Stdlib Require Import ZArith Lia List Bool Ascii String.
From Stdlib Require Import Floats.SpecFloat.
From stdpp Require Import base option list strings gmap pretty.

Local Open Scope Z_scope.

(** ** Numbers *)

Module Num.

Definition prec : Z := 53.
Definition emax : Z := 1024.

Abbreviation number := spec_float.

Definition valid (x : number) : bool := valid_binary prec emax x.

Definition add : number -> number -> number := SFadd prec emax.
Definition mul : number -> number -> number := SFmul prec emax.
Definition div : number -> number -> number := SFdiv prec emax.
Definition neg : number -> number := SFopp.

Definition nan : number := S754_nan.
Definition zero : number := S754_zero false.
Definition infinity : number := S754_infinity false.

Definition isNaN (x : number) : bool :=
  match x with S754_nan => true | _ => false end.

Definition isFinite (x : number) : bool :=
  match x with S754_zero _ | S754_finite _ _ _ => true | _ => false end.

(** [x < y], [x <= y] and [x === y] on numbers: false when either is NaN,
    and the two zeros compare equal. *)
Definition lt (x y : number) : bool := SFltb x y.
Definition le (x y : number) : bool := SFleb x y.
Definition eqb (x y : number) : bool := SFeqb x y.

(** The number nearest to [n / d], for positive integers [n] and [d]. *)
Definition ratio (sign : bool) (n d : positive) : number :=
  let '(q, e, l) := SFdiv_core_binary prec emax (Zpos n) 0 (Zpos d) 0 in
  binary_round_aux prec emax sign q e l.

(** The number nearest to [m * 10 ^ e]: the value of a decimal literal with
    digits [m] and decimal exponent [e]. *)
Definition decimal (sign : bool) (m : N) (e : Z) : number :=
  match m with
  | N0 => S754_zero sign
  | Npos p =>
      if 0 <=? e then ratio sign (p * Z.to_pos (10 ^ e)) 1
      else ratio sign p (Z.to_pos (10 ^ (- e)))
  end.

Definition ofZ (z : Z) : number :=
  match z with
  | Z0 => zero
  | Zpos p => ratio false p 1
  | Zneg p => ratio true p 1
  end.

(** The 53-bit mantissa shared by 50 ([* 2 ^ -47]) and 100 ([* 2 ^ -46]). *)
Definition mantissa_50 : positive := 7036874417766400.

(** [Math.min(a, b)] *)
Definition Math_min (a b : number) : number :=
  if isNaN a || isNaN b then nan
  else match a, b with
       | S754_zero false, S754_zero true => b
       | _, _ => if lt b a then b else a
       end.

(** The exact value of a positive finite number [m * 2 ^ e] as a fraction. *)
Definition fraction (m : positive) (e : Z) : Z * Z :=
  if 0 <=? e then (Zpos m * 2 ^ e, 1) else (Zpos m, 2 ^ (- e)).

(** *** [Number::toString]

    The digits [s] (with [k] digits, [k] least) and the exponent [n] such
    that [s * 10 ^ (n - k)] reads back as the number. *)

(** [n] with [10 ^ (n - 1) <= num / den < 10 ^ n]. *)
Definition below_pow10 (num den n : Z) : bool :=
  if 0 <=? n then num <? den * 10 ^ n else num * 10 ^ (- n) <? den.

Fixpoint adjust_exp10 (fuel : nat) (num den n : Z) : Z :=
  match fuel with
  | O => n
  | S fuel' =>
      if negb (below_pow10 num den n) then adjust_exp10 fuel' num den (n + 1)
      else if below_pow10 num den (n - 1) then adjust_exp10 fuel' num den (n - 1)
      else n
  end.

Definition exp10 (num den : Z) : Z :=
  adjust_exp10 8 num den (((Z.log2 num - Z.log2 den) * 30103) / 100000 + 1).

(** [num / den] divided by [10 ^ p], as a fraction. *)
Definition scale10 (num den p : Z) : Z * Z :=
  if 0 <=? p then (num, den * 10 ^ p) else (num * 10 ^ (- p), den).

Definition reads_back (x : number) (s n k : Z) : bool :=
  match decimal false (Z.to_N s) (n - k), x with
  | S754_finite _ m1 e1, S754_finite _ m2 e2 => Pos.eqb m1 m2 && (e1 =? e2)
  | _, _ => false
  end.

(** The candidate with [k] digits, if one reads back: the nearer of the two
    neighbours of [x / 10 ^ (n - k)], the even one on a tie. A neighbour
    that reaches [10 ^ k] is written with one digit less. *)
Definition candidate (x : number) (num den n k : Z) : option (Z * Z) :=
  let '(a, b) := scale10 num den (n - k) in
  let lo := a / b in
  let hi := lo + 1 in
  let ok_lo := (10 ^ (k - 1) <=? lo) && reads_back x lo n k in
  let ok_hi := if hi =? 10 ^ k then reads_back x 1 (n + 1) 1
               else reads_back x hi n k in
  let hi_repr := if hi =? 10 ^ k then (10 ^ (k - 1), n + 1) else (hi, n) in
  let twice := 2 * (a - lo * b) in
  let prefer_lo := (twice <? b) || ((twice =? b) && Z.even lo) in
  if ok_lo && (prefer_lo || negb ok_hi) then Some (lo, n)
  else if ok_hi then Some hi_repr
  else None.

Fixpoint shortest (fuel : nat) (x : number) (num den n k : Z) : Z * Z * Z :=
  match fuel with
  | O => let '(a, b) := scale10 num den (n - k) in (a / b, n, k)
  | S fuel' =>
      match candidate x num den n k with
      | Some (s, n') => (s, n', k)
      | None => shortest fuel' x num den n (k + 1)
      end
  end.

Definition digits_of (m : positive) (e : Z) : Z * Z * Z :=
  let '(num, den) := fraction m e in
  shortest 17 (S754_finite false m e) num den (exp10 num den) 1.

Definition zeros (n : Z) : string := String.concat "" (repeat "0"%string (Z.to_nat n)).

Definition take (n : Z) (s : string) : string := substring 0 (Z.to_nat n) s.
Definition drop (n : Z) (s : string) : string :=
  substring (Z.to_nat n) (String.length s - Z.to_nat n) s.

Definition toString_pos (m : positive) (e : Z) : string :=
  let '(s, n, k) := digits_of m e in
  let ds := pretty s in
  let k := Z.of_nat (String.length ds) in
  if (k <=? n) && (n <=? 21) then ds +:+ zeros (n - k)
  else if (0 <? n) && (n <=? 21) then take n ds +:+ "." +:+ drop n ds
  else if (-6 <? n) && (n <=? 0) then "0." +:+ zeros (- n) +:+ ds
  else
    let ex := (if 0 <=? n - 1 then "+" else "-") +:+ pretty (Z.abs (n - 1)) in
    if k =? 1 then ds +:+ "e" +:+ ex
    else take 1 ds +:+ "." +:+ drop 1 ds +:+ "e" +:+ ex.

Definition toString (x : number) : string :=
  match x with
  | S754_nan => "NaN"
  | S754_zero _ => "0"
  | S754_infinity false => "Infinity"
  | S754_infinity true => "-Infinity"
  | S754_finite sign m e => (if sign then "-" else "") +:+ toString_pos m e
  end.

(** *** [Number.prototype.toFixed] with two fraction digits

    As in ECMA-262: the digits are those of the exact value, a tie goes to
    the larger integer, a value of [1e21] or more is written as by
    [toString], and negative zero is written without a sign. *)

(** The integer nearest to [m * 2 ^ e * 100], the larger on a tie. *)
Definition hundredths (m : positive) (e : Z) : Z :=
  if 0 <=? e then Zpos m * 2 ^ e * 100
  else (Zpos m * 200 + 2 ^ (- e)) / 2 ^ (- e + 1).

Definition at_least_1e21 (m : positive) (e : Z) : bool :=
  let '(num, den) := fraction m e in den * 10 ^ 21 <=? num.

Definition fixed2 (n : Z) : string :=
  let ds := pretty n in
  let ds := if Nat.leb (String.length ds) 2
            then zeros (3 - Z.of_nat (String.length ds)) +:+ ds else ds in
  let k := Z.of_nat (String.length ds) in
  take (k - 2) ds +:+ "." +:+ drop (k - 2) ds.

Definition toFixed2 (x : number) : string :=
  match x with
  | S754_nan | S754_infinity _ => toString x
  | S754_zero _ => "0.00"
  | S754_finite sign m e =>
      (if sign then "-" else "") +:+
      (if at_least_1e21 m e then toString_pos m e else fixed2 (hundredths m e))
  end.

(** *** [StringToNumber]: the value of [Number(s)] for a string [s] *)

Definition chars (s : string) : list ascii := list_ascii_of_string s.

Definition code (c : ascii) : N := N_of_ascii c.

(** White space and line terminators, as UTF-8 byte sequences: TAB, LF, VT,
    FF, CR, SP, NBSP, U+1680, U+2000-200A, U+2028, U+2029, U+202F, U+205F,
    U+3000 and U+FEFF. *)
Definition white_space : list (list N) :=
  [ [9]; [10]; [11]; [12]; [13]; [32]; [194; 160]; [225; 154; 128];
    [226; 128; 128]; [226; 128; 129]; [226; 128; 130]; [226; 128; 131];
    [226; 128; 132]; [226; 128; 133]; [226; 128; 134]; [226; 128; 135];
    [226; 128; 136]; [226; 128; 137]; [226; 128; 138]; [226; 128; 168];
    [226; 128; 169]; [226; 128; 175]; [226; 129; 159]; [227; 128; 128];
    [239; 187; 191] ]%N.

Fixpoint strip (p : list N) (cs : list ascii) : option (list ascii) :=
  match p, cs with
  | [], _ => Some cs
  | b :: p', c :: cs' => if N.eqb b (code c) then strip p' cs' else None
  | _ :: _, [] => None
  end.

Fixpoint strip_any (ps : list (list N)) (cs : list ascii) : option (list ascii) :=
  match ps with
  | [] => None
  | p :: ps' => match strip p cs with Some r => Some r | None => strip_any ps' cs end
  end.

Fixpoint trim_start (fuel : nat) (ws : list (list N)) (cs : list ascii) : list ascii :=
  match fuel with
  | O => cs
  | S fuel' => match strip_any ws cs with
               | Some r => trim_start fuel' ws r
               | None => cs
               end
  end.

Definition trim (cs : list ascii) : list ascii :=
  let cs := trim_start (List.length cs) white_space cs in
  rev (trim_start (List.length cs) (map (@rev N) white_space) (rev cs)).

(** The value of a digit in the given radix, if it is one. *)
Definition digit (radix : N) (c : ascii) : option N :=
  let n := code c in
  let v := if N.leb 48 n && N.leb n 57 then Some (n - 48)%N
           else if N.leb 97 n && N.leb n 102 then Some (n - 87)%N
           else if N.leb 65 n && N.leb n 70 then Some (n - 55)%N
           else None in
  match v with
  | Some d => if N.ltb d radix then Some d else None
  | None => None
  end.

(** Reads digits: their value, how many were read, and what follows. *)
Fixpoint digits (radix : N) (cs : list ascii) (acc : N) (count : Z)
  : N * Z * list ascii :=
  match cs with
  | c :: cs' => match digit radix c with
                | Some d => digits radix cs' (acc * radix + d)%N (count + 1)
                | None => (acc, count, cs)
                end
  | [] => (acc, count, cs)
  end.

Definition sign_of (cs : list ascii) : bool * list ascii :=
  match cs with
  | c :: cs' => if N.eqb (code c) 45 then (true, cs')
                else if N.eqb (code c) 43 then (false, cs') else (false, cs)
  | [] => (false, cs)
  end.

Definition is_char (n : N) (c : ascii) : bool := N.eqb (code c) n.

(** [ExponentPart], when present: [Some (e, rest)]; a lone [e] is an error. *)
Definition exponent_part (cs : list ascii) : option (Z * list ascii) :=
  match cs with
  | c :: cs' =>
      if is_char 101 c || is_char 69 c then
        let '(sg, r) := sign_of cs' in
        let '(v, n, r') := digits 10 r 0%N 0 in
        if n =? 0 then None
        else Some (if sg : bool then - Z.of_N v else Z.of_N v, r')
      else Some (0, cs)
  | [] => Some (0, cs)
  end.

Definition unsigned_decimal (sg : bool) (cs : list ascii) : number :=
  if String.eqb (string_of_list_ascii cs) "Infinity" then S754_infinity sg
  else
    let '(i, ni, r1) := digits 10 cs 0%N 0 in
    let '(m, nf, r2) :=
      match r1 with
      | c :: r => if is_char 46 c then
                    let '(m, n, r') := digits 10 r i 0 in (m, n, r')
                  else (i, 0, r1)
      | [] => (i, 0, r1)
      end in
    if (ni + nf =? 0) then nan
    else match exponent_part r2 with
         | Some (e, []) => decimal sg m (e - nf)
         | _ => nan
         end.

Definition non_decimal (radix : N) (cs : list ascii) : number :=
  let '(v, n, r) := digits radix cs 0%N 0 in
  match r with
  | [] => if n =? 0 then nan else decimal false v 0
  | _ :: _ => nan
  end.

Definition StringToNumber (s : string) : number :=
  match trim (chars s) with
  | [] => zero
  | (c0 :: c1 :: r) as cs =>
      if is_char 48 c0 && (is_char 120 c1 || is_char 88 c1) then non_decimal 16 r
      else if is_char 48 c0 && (is_char 111 c1 || is_char 79 c1) then non_decimal 8 r
      else if is_char 48 c0 && (is_char 98 c1 || is_char 66 c1) then non_decimal 2 r
      else let '(sg, r') := sign_of cs in unsigned_decimal sg r'
  | cs => let '(sg, r') := sign_of cs in unsigned_decimal sg r'
  end.

(** [Number(x.toFixed(2))]: the rounding to two decimals used by [addTrip]
    (line 277). *)
Definition round2 (x : number) : number := StringToNumber (toFixed2 x).

End Num.

(** ** Values, property lookup and JSON *)

Module JS.
Import Num.

(** A plain object lists its own enumerable properties in enumeration
    order. [VBuiltin] stands for a built-in function object. *)
#[local] Unset Elimination Schemes.
Inductive value :=
  | VUndefined
  | VNull
  | VBool (b : bool)
  | VNum (x : number)
  | VStr (s : string)
  | VArr (items : list value)
  | VObj (props : list (string * value))
  | VBuiltin (name : string).
#[local] Set Elimination Schemes.

(** Induction on values, through arrays and objects. *)
Section induction.
Variable P : value -> Prop.
Hypothesis Hundefined : P VUndefined.
Hypothesis Hnull : P VNull.
Hypothesis Hbool : forall b, P (VBool b).
Hypothesis Hnum : forall x, P (VNum x).
Hypothesis Hstr : forall s, P (VStr s).
Hypothesis Harr : forall items, Forall P items -> P (VArr items).
Hypothesis Hobj : forall props, Forall (fun kv => P (snd kv)) props -> P (VObj props).
Hypothesis Hbuiltin : forall name, P (VBuiltin name).

Fixpoint value_ind (v : value) : P v :=
    match v with
    | VUndefined => Hundefined
    | VNull => Hnull
    | VBool b => Hbool b
    | VNum x => Hnum x
    | VStr s => Hstr s
    | VArr items =>
        Harr items
          ((fix all (l : list value) : Forall P l :=
              match l with
              | [] => List.Forall_nil P
              | x :: r => @List.Forall_cons _ P x r (value_ind x) (all r)
              end) items)
    | VObj props =>
        Hobj props
          ((fix all (l : list (string * value)) : Forall (fun kv => P (snd kv)) l :=
              match l with
              | [] => List.Forall_nil _
              | kv :: r => @List.Forall_cons _ (fun kv => P (snd kv)) kv r (value_ind (snd kv)) (all r)
              end) props)
    | VBuiltin name => Hbuiltin name
    end.
End induction.

(** [ToBoolean] *)
Definition truthy (v : value) : bool :=
  match v with
  | VUndefined | VNull => false
  | VBool b => b
  | VNum x => negb (isNaN x || eqb x zero)
  | VStr s => negb (String.eqb s "")
  | VArr _ | VObj _ | VBuiltin _ => true
  end.

(** [a || b] *)
Definition or_else (a b : value) : value := if truthy a then a else b.

(** [ToString]; an array joins its elements with commas, reading [null]
    and [undefined] as empty. *)
Fixpoint ToString (v : value) : string :=
  match v with
  | VUndefined => "undefined"
  | VNull => "null"
  | VBool true => "true"
  | VBool false => "false"
  | VNum x => Num.toString x
  | VStr s => s
  | VArr items =>
      String.concat ","
        (map (fun i => match i with
                       | VUndefined | VNull => ""%string
                       | _ => ToString i
                       end) items)
  | VObj _ => "[object Object]"
  | VBuiltin name => "function " +:+ name +:+ "() { [native code] }"
  end.

(** [ToNumber], the conversion behind [Number(v)] and the operands of [*]. *)
Definition ToNumber (v : value) : number :=
  match v with
  | VUndefined => nan
  | VNull => zero
  | VBool true => ofZ 1
  | VBool false => zero
  | VNum x => x
  | VStr s => StringToNumber s
  | VArr _ | VObj _ | VBuiltin _ => StringToNumber (ToString v)
  end.

Fixpoint assoc (k : string) (props : list (string * value)) : option value :=
  match props with
  | [] => None
  | (k', v) :: rest => if String.eqb k k' then Some v else assoc k rest
  end.

(** The properties every plain object inherits from [Object.prototype];
    [__proto__] reads as the prototype object itself. *)
Definition Object_prototype : list (string * value) :=
  [ ("constructor", VBuiltin "Object");
    ("hasOwnProperty", VBuiltin "hasOwnProperty");
    ("isPrototypeOf", VBuiltin "isPrototypeOf");
    ("propertyIsEnumerable", VBuiltin "propertyIsEnumerable");
    ("toLocaleString", VBuiltin "toLocaleString");
    ("toString", VBuiltin "toString");
    ("valueOf", VBuiltin "valueOf");
    ("__defineGetter__", VBuiltin "__defineGetter__");
    ("__defineSetter__", VBuiltin "__defineSetter__");
    ("__lookupGetter__", VBuiltin "__lookupGetter__");
    ("__lookupSetter__", VBuiltin "__lookupSetter__");
    ("__proto__", VObj []) ]%string.

(** The property read [v[k]] on a plain object: an own property, else an
    inherited one, else [undefined]. On other values it is used only with
    the keys [date], [vehicle], [distance] and [emissions], which no
    built-in prototype defines. Reading a property of [null] or
    [undefined] throws: [Calculator.init] stops there. *)
Definition get (v : value) (k : string) : value :=
  match v with
  | VObj props =>
      match assoc k props with
      | Some p => p
      | None => default VUndefined (assoc k Object_prototype)
      end
  | _ => VUndefined
  end.

Definition nullish (v : value) : bool :=
  match v with VUndefined | VNull => true | _ => false end.

(** *** JSON

    A string handed to [JSON.parse] matters only through what it parses
    to, so a stored string is represented by its reading under the JSON
    grammar: [JsonText doc] is a text that parses to [doc], [OtherText] one
    that does not parse. *)
Inductive text :=
  | JsonText (doc : value)
  | OtherText (raw : string).

(** What [JSON.stringify] writes for a value ([None]: nothing, the value
    is [undefined] or a function). A number that is not finite is written
    [null], negative zero is written [0]; in an array a value that writes
    nothing is written [null], in an object its property is left out. *)
Fixpoint written (v : value) : option value :=
  match v with
  | VUndefined | VBuiltin _ => None
  | VNull | VBool _ | VStr _ => Some v
  | VNum x =>
      Some match x with
           | S754_zero _ => VNum zero
           | S754_finite _ _ _ => v
           | S754_infinity _ | S754_nan => VNull
           end
  | VArr items => Some (VArr (map (fun i => default VNull (written i)) items))
  | VObj props =>
      Some (VObj (omap (fun kv => pair (fst kv) <$> written (snd kv)) props))
  end.

(** [JSON.stringify(v)], as the string that [setItem] stores. *)
Definition JSON_stringify (v : value) : text :=
  match written v with
  | Some doc => JsonText doc
  | None => OtherText "undefined"
  end.

(** [JSON.parse(s)] where [s] is a string or [null] (an absent storage
    key): [null] is first converted to the text [null]. [None] is a
    [SyntaxError]. *)
Definition JSON_parse (s : option text) : option value :=
  match s with
  | None => Some VNull
  | Some (JsonText doc) => Some doc
  | Some (OtherText _) => None
  end.

(** The values that [JSON.stringify] writes as they are. *)
Fixpoint storable (v : value) : bool :=
  match v with
  | VUndefined | VBuiltin _ => false
  | VNull | VBool _ | VStr _ => true
  | VNum (S754_zero false) | VNum (S754_finite _ _ _) => true
  | VNum _ => false
  | VArr items => forallb storable items
  | VObj props => forallb (fun kv => storable (snd kv)) props
  end.

End JS.

(** ** Hero carousel ([heroCarousel], lines 76-174) *)

Module Carousel.

Definition AUTOPLAY_INTERVAL : Z := 4200.

(** A slide: the [src] and [data-src] of its image, when it has one, and
    the text of its caption, when it has one. *)
Record image := { src : option string; data_src : option string }.
Record slide := { img : option image; figcaption : option string }.

(** [current] and [autoplayId] are the variables of the closure;
    [transform] is the style of the track, [indicators] the [active] flag
    of each indicator button, [live] the announcement nodes now in the
    page, and [timers] the number of intervals created so far. *)
Record state := {
  slides : list slide;
  current : Z;
  autoplayId : option nat;
  transform : string;
  indicators : list bool;
  live : list string;
  timers : nat
}.

Definition count (st : state) : Z := Z.of_nat (length (slides st)).

(** Line 116: [((n % count) + count) % count] *)
Definition wrap (n count : Z) : Z := Z.rem (Z.rem n count + count) count.

(** Line 122: a deferred image gets its source. *)
Definition reveal (s : slide) : slide :=
  match img s with
  | Some {| src := _; data_src := Some d |} =>
      if String.eqb d "" then s
      else {| img := Some {| src := Some d; data_src := Some d |};
              figcaption := figcaption s |}
  | _ => s
  end.

(** Lines 126-134: the text announced for slide [i], if it has a caption. *)
Definition announcement (s : slide) (i : Z) : option string :=
  (fun c => if String.eqb c "" then "Slide " +:+ pretty (i + 1) else c)
    <$> figcaption s.

(** [goTo(n, { announce })] (lines 115-136). With no slide the index is
    NaN and reading [slides[current]] throws: the result is [None]. *)
Definition goTo (n : Z) (announce : bool) (st : state) : option state :=
  let c := wrap n (count st) in
  match slides st !! Z.to_nat c with
  | None => None
  | Some s =>
      Some {| slides := <[Z.to_nat c := reveal s]> (slides st);
              current := c;
              autoplayId := autoplayId st;
              transform := "translateX(-" +:+ pretty (c * 100) +:+ "%)";
              indicators := imap (fun i _ => Z.eqb (Z.of_nat i) c) (indicators st);
              live := if announce
                      then live st ++ from_option (fun a => [a]) [] (announcement s c)
                      else live st;
              timers := timers st |}
  end.

Definition next (st : state) : option state := goTo (current st + 1) true st.
Definition prev (st : state) : option state := goTo (current st - 1) true st.

Definition stopAutoplay (st : state) : state :=
  {| slides := slides st; current := current st; autoplayId := None;
     transform := transform st; indicators := indicators st; live := live st;
     timers := timers st |}.

Definition startAutoplay (st : state) : state :=
  {| slides := slides st; current := current st;
     autoplayId := Some (S (timers st));
     transform := transform st; indicators := indicators st; live := live st;
     timers := S (timers st) |}.

(** The callbacks registered on lines 151-169, the interval of line 144
    and the timeout of line 133. *)
Inductive event :=
  | ClickNext
  | ClickPrev
  | ClickIndicator (index : nat)
  | ArrowLeft
  | ArrowRight
  | Enter
  | Leave
  | Interval
  | Timeout.

Definition handle (e : event) (st : state) : option state :=
  match e with
  | ClickNext | ArrowRight => startAutoplay <$> next st
  | ClickPrev | ArrowLeft => startAutoplay <$> prev st
  | ClickIndicator i => startAutoplay <$> goTo (Z.of_nat i) true st
  | Enter => Some (stopAutoplay st)
  | Leave => Some (startAutoplay st)
  | Interval => match autoplayId st with Some _ => next st | None => Some st end
  | Timeout =>
      Some {| slides := slides st; current := current st;
              autoplayId := autoplayId st; transform := transform st;
              indicators := indicators st; live := tail (live st);
              timers := timers st |}
  end.

(** Lines 87-93: an image without a source has its [src] attribute moved
    to [data-src]; a missing attribute is stored as the text [null]. *)
Definition prepare (s : slide) : slide :=
  match img s with
  | Some i =>
      if String.eqb (default ""%string (src i)) "" then
        {| img := Some {| src := None; data_src := Some (default "null"%string (src i)) |};
           figcaption := figcaption s |}
      else s
  | None => s
  end.

(** The closure body (lines 77-173) for a carousel with the given slides;
    [wrapper] tells whether the indicators container exists. *)
Definition init (sl : list slide) (wrapper : bool) : option state :=
  startAutoplay <$>
  goTo 0 false
    {| slides := map prepare sl; current := 0; autoplayId := None;
       transform := "";
       indicators := if wrapper then imap (fun i _ => Nat.eqb i 0) sl else [];
       live := []; timers := 0 |}.

(** The states the page goes through. *)
Inductive reachable : state -> Prop :=
  | reach_init sl wrapper st : init sl wrapper = Some st -> reachable st
  | reach_step e st st' : reachable st -> handle e st = Some st' -> reachable st'.

(** A carousel of three slides, showing the first. *)
Definition three_slides : state :=
  {| slides := [ {| img := None; figcaption := Some "a"%string |};
                 {| img := None; figcaption := Some "b"%string |};
                 {| img := None; figcaption := None |} ];
     current := 0; autoplayId := None; transform := "";
     indicators := [true; false; false]; live := []; timers := 0 |}.

(** That carousel once the script has run, and after a click on the next
    button. *)
Definition started : state :=
  default three_slides (init (slides three_slides) true).


(** [next] called [k] times in a row. *)
Fixpoint advance (k : nat) (st : state) : option state :=
  match k with
  | O => Some st
  | S k' => match next st with
            | Some st' => advance k' st'
            | None => None
            end
  end.

(** A sequence of events, handled in order. *)
Fixpoint run (es : list event) (st : state) : option state :=
  match es with
  | [] => Some st
  | e :: es' => match handle e st with
                | Some st' => run es' st'
                | None => None
                end
  end.


(** A slide with nothing to defer: no image, or an image with a source
    and no [data-src]. *)
Definition settled (s : slide) : bool :=
  match img s with
  | None => true
  | Some {| src := Some u; data_src := None |} => negb (String.eqb u "")
  | Some _ => false
  end.

End Carousel.

(** ** Trips calculator and storage ([calculator], lines 215-318) *)

Module Calculator.
Import Num JS.

Definition STORAGE_KEY : string := "greenpath-trips-v1".

(** [EMISSION_RATES] (line 11) *)
Definition EMISSION_RATES : value :=
  VObj [ ("car", VNum (decimal false 21 (-2)));
         ("motorbike", VNum (decimal false 10 (-2)));
         ("bus", VNum (decimal false 5 (-2)));
         ("bicycle", VNum zero) ]%string.

(** The elements the calculator looks up by id (lines 216-223). A text
    field is [None] when its element is missing from the page. *)
Inductive table :=
  | NoTable
  | TableWithoutBody
  | Rows (rows : list string).

Record page := {
  statTrips : option string;
  statTotal : option string;
  tripTable : table;
  progressBar : option string;
  totalResult : option string;
  tripResult : option string;
  chartEl : bool
}.

Record chart_config := { labels : list value; data : list number }.

(** The variables of the closure, the heap of array objects and the
    storage. [trips] refers to an array in the heap. *)
Record state := {
  heap : gmap positive (list value);
  trips : positive;
  totalEmissions : number;
  chart : option chart_config;
  localStorage : gmap string text;
  document : page
}.

Definition set_document (p : page) (st : state) : state :=
  {| heap := heap st; trips := trips st; totalEmissions := totalEmissions st;
     chart := chart st; localStorage := localStorage st; document := p |}.

Definition set_heap (h : gmap positive (list value)) (st : state) : state :=
  {| heap := h; trips := trips st; totalEmissions := totalEmissions st;
     chart := chart st; localStorage := localStorage st; document := document st |}.

(** The elements of the array [trips] refers to. *)
Definition items (st : state) : list value := default [] (heap st !! trips st).

(** [el.textContent = s], when the element exists. *)
Definition assign (s : string) (el : option string) : option string :=
  (fun _ => s) <$> el.

(** Lines 225-226: the stored list, or a new empty array when the key is
    absent, the text does not parse, or it parses to a falsy value. *)
Definition load (ls : gmap string text) : value :=
  match JSON_parse (ls !! STORAGE_KEY) with
  | Some v => or_else v (VArr [])
  | None => VArr []
  end.

(** Line 228: [trips.reduce((s, t) => s + Number(t.emissions || 0), 0)] *)
Definition sum_loaded (ts : list value) : number :=
  fold_left (fun s t => add s (ToNumber (or_else (get t "emissions") (VNum zero))))
            ts zero.

Definition updateIndexStats (st : state) : state :=
  let p := document st in
  set_document
    {| statTrips := assign (Num.toString (ofZ (Z.of_nat (length (items st)))))
                           (statTrips p);
       statTotal := assign (toFixed2 (totalEmissions st) +:+ " kg") (statTotal p);
       tripTable := tripTable p; progressBar := progressBar p;
       totalResult := totalResult p; tripResult := tripResult p;
       chartEl := chartEl p |} st.

Definition persist (st : state) : state :=
  updateIndexStats
    {| heap := heap st; trips := trips st; totalEmissions := totalEmissions st;
       chart := chart st;
       localStorage := <[STORAGE_KEY := JSON_stringify (VArr (items st))]> (localStorage st);
       document := document st |}.

Fixpoint replace (c : ascii) (by_ : string) (s : string) : string :=
  match s with
  | EmptyString => EmptyString
  | String a s' =>
      if Ascii.eqb a c then by_ +:+ replace c by_ s' else String a (replace c by_ s')
  end.

Definition escapeHtml (s : value) : string :=
  replace ">"%char "&gt;" (replace "<"%char "&lt;" (replace "&"%char "&amp;" (ToString s))).

(** The [innerHTML] of the row of one trip (line 247). *)
Definition row (t : value) : string :=
  "<td>" +:+ escapeHtml (get t "date") +:+ "</td><td>" +:+
  escapeHtml (get t "vehicle") +:+ "</td><td>" +:+
  escapeHtml (VStr (ToString (get t "distance"))) +:+ "</td><td>" +:+
  escapeHtml (VStr (ToString (get t "emissions"))) +:+ "</td>".

(** The copy made by [trips.slice()] on line 245 does not outlive the
    call and is not recorded in the heap. *)
Definition renderTable (st : state) : state :=
  let p := document st in
  match tripTable p with
  | NoTable | TableWithoutBody => st
  | Rows _ =>
      set_document {| statTrips := statTrips p; statTotal := statTotal p;
                      tripTable := Rows (map row (rev (items st)));
                      progressBar := progressBar p; totalResult := totalResult p;
                      tripResult := tripResult p; chartEl := chartEl p |} st
  end.

(** Line 256: [Math.min((totalEmissions / 50) * 100, 100)] *)
Definition percent (total : number) : number :=
  Math_min (mul (div total (ofZ 50)) (ofZ 100)) (ofZ 100).

(** [progressBar] holds the text assigned to [style.width]. *)
Definition updateProgress (st : state) : state :=
  let p := document st in
  match progressBar p with
  | None => st
  | Some _ =>
      set_document {| statTrips := statTrips p; statTotal := statTotal p;
                      tripTable := tripTable p;
                      progressBar := Some (Num.toString (percent (totalEmissions st)) +:+ "%");
                      totalResult := totalResult p; tripResult := tripResult p;
                      chartEl := chartEl p |} st
  end.

(** [chartEl] is true when the canvas exists and the [Chart] library is
    loaded. *)
Definition updateChart (st : state) : state :=
  if chartEl (document st) then
    {| heap := heap st; trips := trips st; totalEmissions := totalEmissions st;
       chart := Some {| labels := map (fun t => get t "date") (items st);
                        data := map (fun t => ToNumber (get t "emissions")) (items st) |};
       localStorage := localStorage st; document := document st |}
  else st.

(** The record built on line 278. *)
Definition trip (date vehicle : string) (distance emissions : number) : value :=
  VObj [ ("date", VStr date); ("vehicle", VStr vehicle);
         ("distance", VNum distance); ("emissions", VNum emissions) ]%string.

(** Line 276: [EMISSION_RATES[vehicle] || 0] *)
Definition rate (vehicle : string) : value :=
  or_else (get EMISSION_RATES vehicle) (VNum zero).

(** Line 277: [Number((distance * rate).toFixed(2))] *)
Definition emissions_for (vehicle : string) (distance : number) : number :=
  round2 (mul distance (ToNumber (rate vehicle))).

(** [addTrip(vehicle, distance)] (lines 275-287); [today] is what
    [new Date().toLocaleDateString()] returns at the call. *)
Definition addTrip (vehicle : string) (distance : number) (today : string)
    (st : state) : state :=
  let emissions := emissions_for vehicle distance in
  let t := trip today vehicle distance emissions in
  let st := {| heap := <[trips st := items st ++ [t]]> (heap st);
               trips := trips st;
               totalEmissions := add (totalEmissions st) emissions;
               chart := chart st; localStorage := localStorage st;
               document := document st |} in
  let st := updateChart (updateProgress (renderTable (persist st))) in
  let p := document st in
  set_document
    {| statTrips := statTrips p; statTotal := statTotal p;
       tripTable := tripTable p; progressBar := progressBar p;
       totalResult := assign (toFixed2 (totalEmissions st) +:+ " kg") (totalResult p);
       tripResult := assign ("Last trip emitted " +:+ toFixed2 emissions +:+ " kg CO₂")
                            (tripResult p);
       chartEl := chartEl p |} st.

(** The closure body up to line 293, run on a page with heap [h] and
    storage [ls]. [None] is an uncaught [TypeError]: the loaded value has
    no [reduce] method, or an element of the loaded array is [null]. *)
Definition init (h : gmap positive (list value)) (ls : gmap string text)
    (p : page) : option state :=
  match load ls with
  | VArr ts =>
      if forallb (fun t => negb (nullish t)) ts then
        let l := fresh (dom h) in
        Some (updateChart (updateProgress (updateIndexStats (renderTable
                {| heap := <[l := ts]> h; trips := l;
                   totalEmissions := sum_loaded ts; chart := None;
                   localStorage := ls; document := p |}))))
      else None
  | _ => None
  end.

(** The submit handler of [#carbonForm] (lines 297-309). [vehicle] and
    [distanceStr] are the values of [#vehicle] and [#distance], [None]
    when the field is missing. *)
Inductive outcome := Refocused | Added.

Definition rejected (vehicle : option string) (distance : number) : bool :=
  negb (truthy (from_option VStr VUndefined vehicle))
  || isNaN distance || le distance zero.

Definition submit (vehicle distanceStr : option string) (today : string)
    (st : state) : outcome * state :=
  let distance := ToNumber (from_option VStr VUndefined distanceStr) in
  if rejected vehicle distance then (Refocused, st)
  else (Added, addTrip (default ""%string vehicle) distance today st).

(** [window.GreenPath.getTrips()] (line 314): a new array with the same
    elements; the result is the reference to it. *)
Definition getTrips (st : state) : positive * state :=
  let l := fresh (dom (heap st)) in
  (l, set_heap (<[l := items st]> (heap st)) st).

(** [window.GreenPath.clearTrips()] (line 315) *)
Definition clearTrips (st : state) : state :=
  let l := fresh (dom (heap st)) in
  updateChart (updateProgress (renderTable (persist
    {| heap := <[l := []]> (heap st); trips := l; totalEmissions := zero;
       chart := chart st; localStorage := localStorage st; document := document st |}))).

(** What a holder of the array reference [l] can do to it: replace its
    elements by any others ([push], [pop], [length = 0], [splice], ...). *)
Definition mutate (l : positive) (f : list value -> list value) (st : state) : state :=
  set_heap (alter f l (heap st)) st.

(** What happens to a running calculator: the form is submitted, or a
    script of the page calls [clearTrips], or calls [getTrips] and changes
    the array it was given. *)
Inductive step : state -> state -> Prop :=
  | step_submit vehicle distanceStr today st :
      step st (snd (submit vehicle distanceStr today st))
  | step_clearTrips st :
      step st (clearTrips st)
  | step_getTrips f st :
      step st (mutate (fst (getTrips st)) f (snd (getTrips st))).

Inductive reachable : state -> Prop :=
  | reach_init h ls p st : init h ls p = Some st -> reachable st
  | reach_step st st' : reachable st -> step st st' -> reachable st'.

(** Following the spec (section 3): the total is the sum of the
    [emissions] fields, taken in list order. *)
Definition sum_emissions (ts : list value) : number :=
  fold_left (fun s t => add s (ToNumber (get t "emissions"))) ts zero.

Definition consistent (st : state) : Prop :=
  totalEmissions st = sum_emissions (items st).

(** [trips] refers to an array of the heap. *)
Definition allocated (st : state) : Prop := is_Some (heap st !! trips st).


(** [st'] has the variables, heap and storage of [st]: only the page and
    the chart may differ. *)
Definition same_data (st st' : state) : Prop :=
  heap st' = heap st /\ trips st' = trips st
  /\ totalEmissions st' = totalEmissions st
  /\ localStorage st' = localStorage st.

(** The rejection test of the submit handler, spelled out: no vehicle or
    an empty one, a distance that is NaN, or a distance [<= 0]. *)
Definition invalid_input (vehicle : option string) (distance : number) : bool :=
  match vehicle with None => true | Some v => String.eqb v "" end
  || isNaN distance || le distance zero.

(** A page where every element the calculator looks for exists. *)
Definition full_page : page :=
  {| statTrips := Some ""%string; statTotal := Some ""%string;
     tripTable := Rows []; progressBar := Some ""%string;
     totalResult := Some ""%string; tripResult := Some ""%string;
     chartEl := true |}.

(** The calculator on such a page, with no trip yet and nothing stored. *)
Definition blank : state :=
  {| heap := {[ 1%positive := [] ]}; trips := 1%positive; totalEmissions := zero;
     chart := None; localStorage := ∅; document := full_page |}.

(** The calculator of a page opened on the storage that [st] leaves. *)
Definition reopened (st : state) : state :=
  default blank (init ∅ (localStorage st) full_page).

(** The page shows the data: the trip count, the total, the rows (the
    latest trip first), the progress bar and the chart are those of the
    list and the total. The two result lines are not part of it: only
    [addTrip] writes them. *)
Definition shows_count (st : state) : Prop :=
  forall s, statTrips (document st) = Some s ->
            s = Num.toString (ofZ (Z.of_nat (length (items st)))).

Definition shows_total (st : state) : Prop :=
  forall s, statTotal (document st) = Some s ->
            s = toFixed2 (totalEmissions st) +:+ " kg".

Definition shows_rows (st : state) : Prop :=
  forall rows, tripTable (document st) = Rows rows -> rows = map row (rev (items st)).

Definition shows_progress (st : state) : Prop :=
  forall s, progressBar (document st) = Some s ->
            s = Num.toString (percent (totalEmissions st)) +:+ "%".

Definition shows_chart (st : state) : Prop :=
  chartEl (document st) = true ->
  chart st = Some {| labels := map (fun t => get t "date") (items st);
                     data := map (fun t => ToNumber (get t "emissions")) (items st) |}.

Definition in_sync (st : state) : Prop :=
  shows_count st /\ shows_total st /\ shows_rows st /\ shows_progress st
  /\ shows_chart st.



(** Escaping one character at a time: what the three replacements of
    [escapeHtml] are meant to amount to. *)
Definition escape (c : ascii) : string :=
  if Ascii.eqb c "&" then "&amp;"
  else if Ascii.eqb c "<" then "&lt;"
  else if Ascii.eqb c ">" then "&gt;"
  else String c EmptyString.

Fixpoint escape_all (s : string) : string :=
  match s with
  | EmptyString => EmptyString
  | String c s' => escape c +:+ escape_all s'
  end.

(** How many times a character occurs in a string. *)
Fixpoint occurrences (c : ascii) (s : string) : nat :=
  match s with
  | EmptyString => O
  | String a s' => (if Ascii.eqb a c then 1 else 0) + occurrences c s'
  end%nat.

End Calculator.

(** ** Theme (lines 24-42) *)

Module Theme.

Definition THEME_KEY : string := "greenpath-theme".

(** [data_theme] is the attribute of the root element; [themeToggle] is
    [None] when the button is missing and else holds its [aria-pressed]
    attribute. Here a stored string is kept as it is. *)
Record state := {
  data_theme : option string;
  themeToggle : option (option string);
  localStorage : gmap string string
}.

(** [String(theme === 'dark')] *)
Definition pressed (theme : string) : string :=
  if String.eqb theme "dark" then "true" else "false".

Definition setAttribute (value : string) (el : option (option string))
  : option (option string) :=
  (fun _ => Some value) <$> el.

(** Lines 25-29: a saved theme that is not empty is applied. *)
Definition init (st : state) : state :=
  match localStorage st !! THEME_KEY with
  | Some savedTheme =>
      if String.eqb savedTheme "" then st
      else {| data_theme := Some savedTheme;
              themeToggle := setAttribute (pressed savedTheme) (themeToggle st);
              localStorage := localStorage st |}
  | None => st
  end.

(** [setTheme(theme)] (lines 31-35) *)
Definition setTheme (theme : string) (st : state) : state :=
  {| data_theme := Some theme;
     themeToggle := setAttribute (pressed theme) (themeToggle st);
     localStorage := <[THEME_KEY := theme]> (localStorage st) |}.

(** The click handler of the button (lines 38-41); without the button
    there is no handler. *)
Definition click (st : state) : state :=
  match themeToggle st with
  | None => st
  | Some _ =>
      setTheme (match data_theme st with
                | Some t => if String.eqb t "dark" then "light" else "dark"
                | None => "dark"
                end) st
  end.

(** The attribute, the button and the storage agree on a theme that is
    [dark] or [light]. *)
Definition agreed (st : state) : Prop :=
  exists t, (t = "dark" \/ t = "light")%string
            /\ data_theme st = Some t
            /\ themeToggle st = Some (Some (pressed t))
            /\ localStorage st !! THEME_KEY = Some t.

End Theme.

(** ** [debounce] (lines 47-50) *)

Module Debounce.

(** [t] is the variable of the closure; [pending] the timeouts set and
    neither expired nor cleared, each with the arguments of its call;
    [calls] the arguments [fn] was applied to, in order; [timers] the
    number of timeouts set so far. The delay itself is not modelled: a
    timeout expires at some later time, if it is not cleared before. *)
Record state (A : Type) := {
  t : option nat;
  pending : gmap nat A;
  calls : list A;
  timers : nat
}.
Arguments t {A} _.
Arguments pending {A} _.
Arguments calls {A} _.
Arguments timers {A} _.

Definition initial {A : Type} : state A :=
  {| t := None; pending := ∅; calls := []; timers := 0 |}.

(** [clearTimeout(t)]; clearing [undefined], or a timeout that has
    expired, does nothing. *)
Definition clearTimeout {A : Type} (id : option nat) (p : gmap nat A) : gmap nat A :=
  match id with
  | Some i => delete i p
  | None => p
  end.

(** A call of the debounced function (line 49). *)
Definition call {A : Type} (args : A) (st : state A) : state A :=
  let id := S (timers st) in
  {| t := Some id;
     pending := <[id := args]> (clearTimeout (t st) (pending st));
     calls := calls st;
     timers := id |}.

(** The timeout [id] expires: [fn] is applied to the arguments kept. *)
Definition expire {A : Type} (id : nat) (st : state A) : state A :=
  match pending st !! id with
  | Some args => {| t := t st; pending := delete id (pending st);
                    calls := calls st ++ [args]; timers := timers st |}
  | None => st
  end.

Inductive event (A : Type) :=
  | Call (args : A)
  | Expire (id : nat).
Arguments Call {A} _.
Arguments Expire {A} _.

Definition handle {A : Type} (st : state A) (e : event A) : state A :=
  match e with
  | Call args => call args st
  | Expire id => expire id st
  end.

Definition run {A : Type} (es : list (event A)) (st : state A) : state A :=
  fold_left handle es st.

(** No timeout is pending but the one [t] names. *)
Definition tidy {A : Type} (st : state A) : Prop :=
  forall id args, pending st !! id = Some args -> t st = Some id.

End Debounce.

(** ** Lazy loading of images (lines 55-71) *)

Module Lazy.
Import Carousel.

(** [supported] tells whether the page has [IntersectionObserver], that
    is, whether [lazyObserver] is not [null]. *)
Record state := {
  supported : bool;
  images : gmap nat image;
  observed : gset nat
}.

(** Lines 59-63: a deferred source that is not empty becomes the source
    and the [data-src] attribute is removed. *)
Definition load (i : image) : image :=
  match data_src i with
  | Some d => if String.eqb d "" then i else {| src := Some d; data_src := None |}
  | None => i
  end.

(** One entry of the callback: the image and whether it intersects. *)
Definition on_entry (st : state) (entry : nat * bool) : state :=
  if snd entry then
    {| supported := supported st;
       images := alter load (fst entry) (images st);
       observed := observed st ∖ {[ fst entry ]} |}
  else st.

(** The callback of the observer (lines 55-66). *)
Definition callback (entries : list (nat * bool)) (st : state) : state :=
  fold_left on_entry entries st.

(** [observeLazyImages(root)], where [root] lists the images under the
    root element: those with a [data-src] attribute are observed. *)
Definition observeLazyImages (root : list nat) (st : state) : state :=
  if supported st then
    {| supported := true; images := images st;
       observed := observed st ∪
         list_to_set (filter (fun id => is_Some (images st !! id ≫= data_src)) root) |}
  else st.

End Lazy.

(** ** The generated style ([ensureSrOnly], lines 323-331) *)

Module SrOnly.

(** A style element: its [data-generated-by] attribute and its text. *)
Record style := { generated_by : option string; text : string }.

Definition css : string :=
  ".sr-only{position:absolute;width:1px;height:1px;padding:0;margin:-1px;overflow:hidden;clip:rect(0,0,0,0);white-space:nowrap;border:0}".

Definition generated (s : style) : bool :=
  match generated_by s with
  | Some g => String.eqb g "file.js"
  | None => false
  end.

(** [styles] are the style elements of the document, the latest last. *)
Definition ensureSrOnly (styles : list style) : list style :=
  if existsb generated styles then styles
  else styles ++ [ {| generated_by := Some "file.js"%string; text := css |} ].

End SrOnly.

(** ** Quiz feedback (lines 336-346) *)

Module Quiz.

Record feedback := { textContent : string; classList : gset string }.

(** [btn.dataset.correct === 'true'] *)
Definition correct (attribute : option string) : bool :=
  match attribute with
  | Some a => String.eqb a "true"
  | None => false
  end.

(** A click on a button whose [data-correct] attribute is [attribute],
    on the feedback element of its question. *)
Definition click (attribute : option string) (f : feedback) : feedback :=
  {| textContent := if correct attribute then "✅ Correct! Well done."
                    else "❌ Incorrect. Try again!";
     classList := if correct attribute then classList f ∖ {[ "incorrect"%string ]}
                  else classList f ∪ {[ "incorrect"%string ]} |}.

(** The handler as a whole (lines 341-345): [question] is [None] when the
    button has no enclosing [.quiz-question], and holds [None] when that
    element has no [.quiz-feedback]; in both cases the handler throws a
    [TypeError] before it changes anything. *)
Definition handler (attribute : option string) (question : option (option feedback))
  : option feedback :=
  match question with
  | Some (Some f) => Some (click attribute f)
  | _ => None
  end.

End Quiz.

(** ** The video (lines 202-209) *)

Module Video.

(** [pat] removed from the start of [s], when [s] starts with it. *)
Fixpoint strip_prefix (pat s : string) : option string :=
  match pat with
  | EmptyString => Some s
  | String c pat' =>
      match s with
      | String d s' => if Ascii.eqb c d then strip_prefix pat' s' else None
      | EmptyString => None
      end
  end.

(** [s.replace(pat, by_)] for a string pattern and a replacement without
    [$]: the first occurrence of [pat] is replaced. *)
Fixpoint replace_first (pat by_ s : string) {struct s} : string :=
  match strip_prefix pat s with
  | Some rest => by_ +:+ rest
  | None =>
      match s with
      | EmptyString => EmptyString
      | String c s' => String c (replace_first pat by_ s')
      end
  end.

(** Line 207 *)
Definition unmute (src : string) : string := replace_first "mute=1" "mute=0" src.

(** [iframe] is the address of the frame in [.video-wrap], [None] when
    the page has no such frame; [listening] tells whether the handler is
    registered on the body. *)
Record state := { iframe : option string; listening : bool }.

(** The [DOMContentLoaded] handler: without the frame it registers
    nothing. *)
Definition ready (src : option string) : state :=
  {| iframe := src; listening := match src with Some _ => true | None => false end |}.

(** A click anywhere in the body; the handler is registered with
    [once: true]. *)
Definition click (st : state) : state :=
  if listening st then {| iframe := unmute <$> iframe st; listening := false |}
  else st.

(** [pat] occurs in [s]. *)
Definition occurs (pat s : string) : Prop := exists a b, s = a +:+ pat +:+ b.

End Video.

(** * Properties *)

(** ** Rounding *)

Module NumFacts.
Import Num.

Lemma fexp_eq x : fexp prec emax x = Z.max (x - 53) (-1074).
Proof. reflexivity. Qed.

Lemma digits2_pos_size p : digits2_pos p = Pos.size p.
Proof. induction p; simpl; congruence. Qed.

Lemma Zdigits2_log2 p : Zdigits2 (Zpos p) = Z.log2 (Zpos p) + 1.
Proof. simpl. rewrite digits2_pos_size. destruct p; simpl; lia. Qed.

(** A positive integer of [d] binary digits lies in [2 ^ (d - 1), 2 ^ d). *)
Lemma Zdigits2_bounds p :
  2 ^ (Zdigits2 (Zpos p) - 1) <= Zpos p < 2 ^ Zdigits2 (Zpos p).
Proof.
  rewrite Zdigits2_log2.
  pose proof (Z.log2_spec (Zpos p) ltac:(lia)) as H.
  replace (Z.log2 (Zpos p) + 1 - 1) with (Z.log2 (Zpos p)) by lia.
  replace (Z.log2 (Zpos p) + 1) with (Z.succ (Z.log2 (Zpos p))) by lia. exact H.
Qed.

Lemma Zdigits2_unique p d : 2 ^ (d - 1) <= Zpos p < 2 ^ d -> Zdigits2 (Zpos p) = d.
Proof.
  intros H. rewrite Zdigits2_log2.
  assert (0 < d).
  { destruct (Z_lt_le_dec 0 d); [assumption|].
    assert (2 ^ d <= 2 ^ 0) by (apply Z.pow_le_mono_r; lia). simpl in *. lia. }
  rewrite (Z.log2_unique (Zpos p) (d - 1)); [lia|lia|].
  replace (Z.succ (d - 1)) with d by lia. exact H.
Qed.

Lemma digits_between p lo hi :
  0 <= lo -> 2 ^ lo <= Zpos p < 2 ^ hi -> lo < Zdigits2 (Zpos p) <= hi.
Proof.
  intros Hlo [H1 H2]. pose proof (Zdigits2_bounds p) as [Hb1 Hb2].
  assert (0 < Zdigits2 (Zpos p)) by (simpl; lia).
  split.
  - destruct (Z_lt_le_dec lo (Zdigits2 (Zpos p))); [assumption|].
    assert (2 ^ Zdigits2 (Zpos p) <= 2 ^ lo) by (apply Z.pow_le_mono_r; lia). lia.
  - destruct (Z_le_gt_dec (Zdigits2 (Zpos p)) hi); [assumption|].
    assert (2 ^ hi <= 2 ^ (Zdigits2 (Zpos p) - 1)) by (apply Z.pow_le_mono_r; lia). lia.
Qed.

(** *** Shifting a mantissa right *)

Lemma shr_1_m r : 0 <= shr_m r -> shr_m (shr_1 r) = shr_m r / 2.
Proof.
  destruct r as [m rb sb]. simpl. intros Hm.
  destruct m as [|[p|p|]|p]; simpl; try reflexivity; try lia.
  - apply (Z.div_unique _ 2 _ 1); lia.
  - apply (Z.div_unique _ 2 _ 0); lia.
Qed.

Lemma shr_iter_m p : forall r, 0 <= shr_m r ->
  shr_m (SpecFloat.iter_pos shr_1 p r) = shr_m r / 2 ^ Zpos p.
Proof.
  induction p as [p IH|p IH|]; intros r Hr.
  - change (SpecFloat.iter_pos shr_1 p~1 r)
      with (SpecFloat.iter_pos shr_1 p (SpecFloat.iter_pos shr_1 p (shr_1 r))).
    assert (H1 : 0 <= shr_m (shr_1 r)) by (rewrite shr_1_m by lia; apply Z.div_pos; lia).
    assert (H2 : 0 <= shr_m (SpecFloat.iter_pos shr_1 p (shr_1 r)))
      by (rewrite IH by lia; apply Z.div_pos; lia).
    rewrite IH, IH, shr_1_m by lia.
    rewrite !Z.div_div by lia. f_equal.
    replace (Z.pos p~1) with (1 + Z.pos p + Z.pos p) by lia.
    rewrite !Z.pow_add_r by lia. lia.
  - change (SpecFloat.iter_pos shr_1 p~0 r)
      with (SpecFloat.iter_pos shr_1 p (SpecFloat.iter_pos shr_1 p r)).
    assert (H2 : 0 <= shr_m (SpecFloat.iter_pos shr_1 p r))
      by (rewrite IH by lia; apply Z.div_pos; lia).
    rewrite IH, IH by lia. rewrite Z.div_div by lia. f_equal.
    replace (Z.pos p~0) with (Z.pos p + Z.pos p) by lia.
    rewrite Z.pow_add_r by lia. lia.
  - change (SpecFloat.iter_pos shr_1 1 r) with (shr_1 r).
    rewrite shr_1_m by lia. reflexivity.
Qed.

Lemma shr_m_of_loc m l : shr_m (shr_record_of_loc m l) = m.
Proof. destruct l as [|[| |]]; reflexivity. Qed.

Lemma round_nearest_even_bounds m l : m <= round_nearest_even m l <= m + 1.
Proof. destruct l as [|[| |]]; simpl; try lia. destruct (Z.even m); lia. Qed.

Lemma shr_spec r e n :
  0 <= shr_m r -> 0 <= n ->
  exists r', shr r e n = (r', e + n) /\ shr_m r' = shr_m r / 2 ^ n.
Proof.
  intros Hr Hn. destruct n as [|p|p]; [| |lia].
  - exists r. simpl. rewrite Z.add_0_r, Z.div_1_r. split; reflexivity.
  - eexists. split; [reflexivity|]. by apply shr_iter_m.
Qed.

Lemma shr_fexp_spec m e l :
  0 < m -> e <= fexp prec emax (Zdigits2 m + e) ->
  exists r', shr_fexp prec emax m e l = (r', fexp prec emax (Zdigits2 m + e))
             /\ shr_m r' = m / 2 ^ (fexp prec emax (Zdigits2 m + e) - e).
Proof.
  intros Hm He. unfold shr_fexp.
  destruct (shr_spec (shr_record_of_loc m l) e (fexp prec emax (Zdigits2 m + e) - e))
    as (r' & Hs & Hr'); [rewrite shr_m_of_loc; lia|lia|].
  exists r'. rewrite Hs, Hr', shr_m_of_loc. split; [f_equal; lia|reflexivity].
Qed.

Lemma pow2_div_bounds m d k :
  0 <= k -> 0 <= d -> 2 ^ (d + k) <= m < 2 ^ (d + k + 1) ->
  2 ^ d <= m / 2 ^ k < 2 ^ (d + 1).
Proof.
  intros Hk Hd [Hlo Hhi].
  assert (0 < 2 ^ k) by (apply Z.pow_pos_nonneg; lia).
  rewrite Z.pow_add_r in Hlo by lia.
  replace (d + k + 1) with (d + 1 + k) in Hhi by lia.
  rewrite Z.pow_add_r in Hhi by lia.
  split.
  - apply Z.div_le_lower_bound; lia.
  - apply Z.div_lt_upper_bound; lia.
Qed.

(** Rounding a mantissa of at least 53 digits in the normal range keeps
    its leading 53 digits, rounded up or not: the result has exponent
    [ex + d - 53] and a mantissa no less than the truncated one, or the
    mantissa carried and the exponent is one more. *)
Lemma round_aux_normal sx mx ex lx :
  let d := Zdigits2 (Zpos mx) in
  53 <= d -> -1074 <= d + ex - 53 ->
  exists m2 e2,
    2 ^ 52 <= Zpos m2 < 2 ^ 53
    /\ binary_round_aux prec emax sx (Zpos mx) ex lx
       = (if e2 <=? 971 then S754_finite sx m2 e2 else S754_infinity sx)
    /\ ((e2 = ex + d - 53 /\ Zpos mx / 2 ^ (d - 53) <= Zpos m2)
        \/ e2 = ex + d - 53 + 1).
Proof.
  intros d Hd He. unfold binary_round_aux.
  assert (Hf : fexp prec emax (Zdigits2 (Zpos mx) + ex) = ex + d - 53)
    by (rewrite fexp_eq; fold d; lia).
  destruct (shr_fexp_spec (Zpos mx) ex lx) as (r1 & -> & Hr1); [lia|lia|].
  rewrite Hf in *. replace (ex + d - 53 - ex) with (d - 53) in Hr1 by lia.
  set (e1 := ex + d - 53) in *.
  assert (Hm1 : 2 ^ 52 <= shr_m r1 < 2 ^ 53).
  { rewrite Hr1. apply (pow2_div_bounds _ 52 (d - 53)); [lia|lia|].
    pose proof (Zdigits2_bounds mx) as Hb. fold d in Hb.
    replace (52 + (d - 53)) with (d - 1) by lia.
    replace (d - 1 + 1) with d by lia. exact Hb. }
  pose proof (round_nearest_even_bounds (shr_m r1) (loc_of_shr_record r1)) as Hrne.
  set (m1' := round_nearest_even (shr_m r1) (loc_of_shr_record r1)) in *.
  destruct (Z_lt_le_dec m1' (2 ^ 53)) as [Hlt|Hge].
  - destruct m1' as [|p|p] eqn:Ep; try lia.
    assert (Hdig : Zdigits2 (Zpos p) = 53) by (apply Zdigits2_unique; lia).
    destruct (shr_fexp_spec (Zpos p) e1 loc_Exact) as (r2 & -> & Hr2);
      [lia|rewrite Hdig, fexp_eq; lia|].
    rewrite Hdig in *. rewrite fexp_eq in *.
    replace (Z.max (53 + e1 - 53) (-1074)) with e1 in * by lia.
    rewrite Z.sub_diag, Z.div_1_r in Hr2. rewrite Hr2.
    exists p, e1. split; [lia|]. split; [reflexivity|]. left. split; [reflexivity|].
    rewrite <- Hr1. lia.
  - assert (Em : m1' = 2 ^ 53) by lia.
    rewrite Em. change (2 ^ 53) with (Zpos (2 ^ 53)%positive).
    assert (Hdig : Zdigits2 (Zpos (2 ^ 53)%positive) = 54) by reflexivity.
    destruct (shr_fexp_spec (Zpos (2 ^ 53)%positive) e1 loc_Exact) as (r2 & -> & Hr2);
      [lia|rewrite Hdig, fexp_eq; lia|].
    rewrite Hdig in *. rewrite fexp_eq in *.
    replace (Z.max (54 + e1 - 53) (-1074)) with (e1 + 1) in * by lia.
    replace (e1 + 1 - e1) with 1 in Hr2 by lia.
    change (Zpos (2 ^ 53)%positive / 2 ^ 1) with (Zpos (2 ^ 52)%positive) in Hr2.
    rewrite Hr2.
    exists (2 ^ 52)%positive, (e1 + 1). split; [simpl; lia|].
    split; [reflexivity|]. right. reflexivity.
Qed.

(** *** Fifty and a hundred *)

Lemma ofZ_50 : ofZ 50 = S754_finite false mantissa_50 (-47).
Proof. vm_compute. reflexivity. Qed.

Lemma ofZ_100 : ofZ 100 = S754_finite false mantissa_50 (-46).
Proof. vm_compute. reflexivity. Qed.

(** [50 <= x] on the representation of a valid number. *)
Lemma at_least_50 x :
  valid x = true -> le (ofZ 50) x = true ->
  x = S754_infinity false
  \/ exists m e, x = S754_finite false m e /\ 2 ^ 52 <= Zpos m < 2 ^ 53
                 /\ (-47 < e \/ (e = -47 /\ Zpos mantissa_50 <= Zpos m)).
Proof.
  rewrite ofZ_50. unfold valid, le, SFleb. intros Hv Hle.
  destruct x as [s|[|]| |[|] m e]; try discriminate; [left; reflexivity|].
  right. exists m, e. split; [reflexivity|].
  assert (He : -47 < e \/ (e = -47 /\ Zpos mantissa_50 <= Zpos m)).
  { unfold SFcompare in Hle.
    destruct (Z.compare_spec (-47) e) as [<-| |]; [right|left; lia|discriminate].
    split; [reflexivity|].
    change (Pos.compare_cont Eq mantissa_50 m) with (Pos.compare mantissa_50 m) in Hle.
    destruct (Pos.compare_spec mantissa_50 m) as [<-|Hlt|Hgt];
      [reflexivity|apply Pos2Z.pos_lt_pos in Hlt; clear Hle Hv; lia|discriminate]. }
  split; [|exact He].
  unfold valid_binary, bounded, canonical_mantissa in Hv.
  apply andb_prop in Hv as [Hc _]. apply Z.eqb_eq in Hc. rewrite fexp_eq in Hc.
  pose proof (Zdigits2_bounds m) as Hb.
  change (Zdigits2 (Zpos m)) with (Zpos (digits2_pos m)) in Hb.
  assert (Z.pos (digits2_pos m) = 53) as E by (clear Hle; lia).
  rewrite E in Hb. exact Hb.
Qed.

(** The quotient by fifty of a number that is at least fifty is at least
    one. *)
Lemma div_50_at_least_1 m e :
  2 ^ 52 <= Zpos m < 2 ^ 53 ->
  -47 < e \/ (e = -47 /\ Zpos mantissa_50 <= Zpos m) ->
  div (S754_finite false m e) (ofZ 50) = S754_infinity false
  \/ exists m2 e2, div (S754_finite false m e) (ofZ 50) = S754_finite false m2 e2
                   /\ 2 ^ 52 <= Zpos m2 < 2 ^ 53 /\ -52 <= e2.
Proof.
  intros Hm He. rewrite ofZ_50. unfold div, SFdiv, SFdiv_core_binary.
  assert (Hd1 : Zdigits2 (Zpos m) = 53) by (apply Zdigits2_unique; lia).
  rewrite Hd1. change (Zdigits2 (Zpos mantissa_50)) with 53. rewrite fexp_eq.
  replace (Z.min (Z.max (53 + e - (53 + -47) - 53) (-1074)) (e - -47)) with (e - 6) by lia.
  replace (e - -47 - (e - 6)) with 53 by lia.
  rewrite Z.shiftl_mul_pow2 by lia.
  pose proof (Z_div_mod (Zpos m * 2 ^ 53) (Zpos mantissa_50) ltac:(lia)) as Hdm.
  destruct (Z.div_eucl (Zpos m * 2 ^ 53) (Zpos mantissa_50)) as [q r].
  destruct Hdm as [Hq Hr].
  change (xorb false false) with false.
  assert (Hqb : 2 ^ 52 <= q < 2 ^ 54) by (unfold mantissa_50 in *; lia).
  destruct q as [|q|q]; try lia.
  pose proof (digits_between q 52 54 ltac:(lia) Hqb) as Hdq.
  destruct (round_aux_normal false q (e - 6) (new_location (Zpos mantissa_50) r))
    as (m2 & e2 & Hm2 & -> & Hcase); [lia|lia|].
  destruct (e2 <=? 971); [right|left; reflexivity].
  exists m2, e2. split; [reflexivity|]. split; [exact Hm2|].
  destruct He as [He|[-> Hge]]; [lia|].
  assert (2 ^ 53 <= Zpos q) by (unfold mantissa_50 in *; nia).
  pose proof (digits_between q 53 54 ltac:(lia) ltac:(lia)). lia.
Qed.

(** A hundred times a number that is at least one is at least a hundred. *)
Lemma mul_100_at_least_100 m2 e2 :
  2 ^ 52 <= Zpos m2 < 2 ^ 53 -> -52 <= e2 ->
  mul (S754_finite false m2 e2) (ofZ 100) = S754_infinity false
  \/ exists m3 e3, mul (S754_finite false m2 e2) (ofZ 100) = S754_finite false m3 e3
                   /\ (-46 < e3 \/ (e3 = -46 /\ Zpos mantissa_50 <= Zpos m3)).
Proof.
  intros Hm He. rewrite ofZ_100. unfold mul, SFmul.
  change (xorb false false) with false.
  assert (Hp : 2 ^ 104 <= Zpos (m2 * mantissa_50) < 2 ^ 106)
    by (rewrite Pos2Z.inj_mul; unfold mantissa_50; nia).
  pose proof (digits_between (m2 * mantissa_50) 104 106 ltac:(lia) Hp) as Hd.
  destruct (round_aux_normal false (m2 * mantissa_50) (e2 + -46) loc_Exact)
    as (m3 & e3 & Hm3 & -> & Hcase); [lia|lia|].
  destruct (e3 <=? 971); [right|left; reflexivity].
  exists m3, e3. split; [reflexivity|].
  destruct Hcase as [[-> Hle] | ->]; [|lia].
  destruct (Z_lt_le_dec (-46) (e2 + -46 + Zdigits2 (Zpos (m2 * mantissa_50)) - 53))
    as [|Hs]; [left; assumption|right].
  assert (Zdigits2 (Zpos (m2 * mantissa_50)) = 105) as Hd105 by lia.
  rewrite Hd105 in *. split; [lia|].
  eapply Z.le_trans; [|exact Hle].
  apply Z.div_le_lower_bound; [lia|]. rewrite Pos2Z.inj_mul. unfold mantissa_50. nia.
Qed.

Lemma min_100 x :
  x = S754_infinity false
  \/ (exists m e, x = S754_finite false m e
                  /\ (-46 < e \/ (e = -46 /\ Zpos mantissa_50 <= Zpos m))) ->
  Math_min x (ofZ 100) = ofZ 100.
Proof.
  rewrite ofZ_100. intros [->|(m & e & -> & He)]; [reflexivity|].
  unfold Math_min, lt, SFltb. cbn -[Z.compare Pos.compare_cont].
  destruct (Z.compare_spec (-46) e) as [<-| |]; [|reflexivity|exfalso; lia].
  change (Pos.compare_cont Eq mantissa_50 m) with (Pos.compare mantissa_50 m).
  destruct (Pos.compare_spec mantissa_50 m) as [->| |Hgt]; [reflexivity|reflexivity|].
  exfalso. apply Pos2Z.pos_lt_pos in Hgt. lia.
Qed.

(** Whatever is at least fifty is shown as exactly a hundred percent. *)
Lemma clamp total :
  valid total = true -> le (ofZ 50) total = true ->
  Math_min (mul (div total (ofZ 50)) (ofZ 100)) (ofZ 100) = ofZ 100.
Proof.
  intros Hv Hle.
  destruct (at_least_50 total Hv Hle) as [->|(m & e & -> & Hm & He)];
    [vm_compute; reflexivity|].
  destruct (div_50_at_least_1 m e Hm He) as [->|(m2 & e2 & -> & Hm2 & He2)];
    [vm_compute; reflexivity|].
  apply min_100.
  destruct (mul_100_at_least_100 m2 e2 Hm2 He2) as [->|(m3 & e3 & -> & H3)];
    [left; reflexivity|right; eauto].
Qed.

End NumFacts.

(** ** The carousel index *)

Module CarouselFacts.
Import Carousel.

Lemma wrap_range n c : 0 < c -> 0 <= wrap n c < c.
Proof.
  intros Hc. unfold wrap.
  pose proof (Z.rem_bound_abs n c ltac:(lia)) as Habs.
  pose proof (Z.rem_bound_pos (Z.rem n c + c) c ltac:(lia) ltac:(lia)). lia.
Qed.

(** On a positive count the wrapped index is the mathematical modulus. *)
Lemma wrap_mod n c : 0 < c -> wrap n c = n mod c.
Proof.
  intros Hc. unfold wrap.
  rewrite (Z.rem_mod_nonneg (Z.rem n c + c) c)
    by (pose proof (Z.rem_bound_abs n c ltac:(lia)); lia).
  rewrite Z.add_mod, Z.mod_same, Z.add_0_r, Z.mod_mod by lia.
  rewrite Z.rem_eq by lia.
  replace (n - c * (n ÷ c)) with (n + (- (n ÷ c)) * c) by ring.
  apply Z_mod_plus_full.
Qed.

Lemma goTo_spec n announce st :
  0 < count st ->
  exists st', goTo n announce st = Some st'
              /\ current st' = wrap n (count st)
              /\ count st' = count st.
Proof.
  intros Hc. unfold goTo.
  pose proof (wrap_range n _ Hc) as Hr.
  destruct (lookup_lt_is_Some_2 (slides st) (Z.to_nat (wrap n (count st)))) as [s Hs].
  { unfold count in *. lia. }
  rewrite Hs. eexists. split; [reflexivity|]. split; [reflexivity|].
  unfold count. simpl. by rewrite length_insert.
Qed.

(** C2. For every integer [n], negative or not, [goTo(n)] on a carousel
    with [count > 0] slides sets the current index to
    [((n % count) + count) % count]; the index is then within
    [0 .. count - 1], and so it is after [next] and [prev]. *)
Theorem goTo_index_wraps_into_range (st : state) (n : Z) (announce : bool) :
  0 < count st ->
  (exists st', goTo n announce st = Some st'
     /\ current st' = Z.rem (Z.rem n (count st) + count st) (count st)
     /\ count st' = count st
     /\ 0 <= current st' < count st')
  /\ (exists st', next st = Some st' /\ 0 <= current st' < count st')
  /\ (exists st', prev st = Some st' /\ 0 <= current st' < count st').
Proof.
  intros Hc.
  assert (Hgo : forall k a, exists st', goTo k a st = Some st'
     /\ current st' = wrap k (count st) /\ count st' = count st
     /\ 0 <= current st' < count st').
  { intros k a. destruct (goTo_spec k a st Hc) as (st' & Hg & Hcur & Hcnt).
    exists st'. split; [assumption|]. split; [assumption|]. split; [assumption|].
    rewrite Hcur, Hcnt. apply wrap_range; assumption. }
  split; [apply Hgo|]. unfold next, prev.
  split.
  - destruct (Hgo (current st + 1) true) as (st' & ? & ? & ? & ?). eauto.
  - destruct (Hgo (current st - 1) true) as (st' & ? & ? & ? & ?). eauto.
Qed.

Lemma goTo_index_wraps_into_range_witness :
  (exists st', goTo (-4) true three_slides = Some st'
     /\ current st' = Z.rem (Z.rem (-4) (count three_slides) + count three_slides)
                            (count three_slides)
     /\ count st' = count three_slides
     /\ 0 <= current st' < count st')
  /\ (exists st', next three_slides = Some st' /\ 0 <= current st' < count st')
  /\ (exists st', prev three_slides = Some st' /\ 0 <= current st' < count st').
Proof. apply (goTo_index_wraps_into_range three_slides (-4) true). reflexivity. Defined.

Example goTo_minus_four :
  current <$> goTo (-4) true three_slides = Some 2
  /\ transform <$> goTo (-4) true three_slides = Some "translateX(-200%)"%string
  /\ indicators <$> goTo (-4) true three_slides = Some [false; false; true].
Proof. repeat split; vm_compute; reflexivity. Qed.



End CarouselFacts.

(** ** JSON values *)

Module JSFacts.
Import Num JS.

(** A storable value is written as it is. *)
Lemma written_storable v : storable v = true -> written v = Some v.
Proof.
  induction v as [ | | b | x | s | items IH | props IH | name ] using value_ind;
    simpl; try (reflexivity || discriminate).
  - destruct x as [[|] | | | ]; (reflexivity || discriminate).
  - intros Hs. do 2 f_equal.
    induction IH as [|v r Hv _ IHr]; [reflexivity|].
    simpl in Hs. apply andb_prop in Hs as [Hv' Hr]. simpl.
    rewrite (Hv Hv'). simpl. f_equal. exact (IHr Hr).
  - intros Hs. do 2 f_equal.
    induction IH as [|[k v] r Hv _ IHr]; [reflexivity|].
    simpl in Hs. apply andb_prop in Hs as [Hv' Hr]. simpl in *.
    rewrite (Hv Hv'). simpl. f_equal. exact (IHr Hr).
Qed.

(** What is written is storable. *)
Lemma storable_written v d : written v = Some d -> storable d = true.
Proof.
  revert d.
  induction v as [ | | b | x | s | items IH | props IH | name ] using value_ind;
    simpl; intros d Hd; try discriminate; try (injection Hd as <-; reflexivity).
  - injection Hd as <-. destruct x; reflexivity.
  - injection Hd as <-. simpl.
    induction IH as [|v r Hv _ IHr]; [reflexivity|]. simpl.
    rewrite IHr, andb_true_r.
    destruct (written v) as [d|] eqn:E; [exact (Hv d eq_refl)|reflexivity].
  - injection Hd as <-. simpl.
    induction IH as [|[k v] r Hv _ IHr]; [reflexivity|]. simpl in *.
    destruct (written v) as [d|] eqn:E; simpl; [|exact IHr].
    rewrite (Hv d eq_refl). exact IHr.
Qed.

(** Writing what was written changes nothing. *)
Lemma written_twice v :
  written (default VNull (written v)) = Some (default VNull (written v)).
Proof.
  destruct (written v) as [d|] eqn:E; [|reflexivity].
  simpl. apply written_storable. exact (storable_written v d E).
Qed.

End JSFacts.

(** ** The calculator *)

Module CalculatorFacts.
Import Num JS Calculator JSFacts.

(** *** What the rendering functions leave alone *)

Lemma same_data_refl st : same_data st st.
Proof. by repeat split. Qed.

Lemma same_data_trans st1 st2 st3 :
  same_data st1 st2 -> same_data st2 st3 -> same_data st1 st3.
Proof.
  intros (? & ? & ? & ?) (? & ? & ? & ?). repeat split; congruence.
Qed.

Lemma same_data_items st st' : same_data st st' -> items st' = items st.
Proof. intros (Hh & Ht & _). unfold items. by rewrite Hh, Ht. Qed.

Lemma updateIndexStats_data st : same_data st (updateIndexStats st).
Proof. by repeat split. Qed.

Lemma renderTable_data st : same_data st (renderTable st).
Proof. unfold renderTable. destruct (tripTable _); by repeat split. Qed.

Lemma updateProgress_data st : same_data st (updateProgress st).
Proof. unfold updateProgress. destruct (progressBar _); by repeat split. Qed.

Lemma updateChart_data st : same_data st (updateChart st).
Proof. unfold updateChart. destruct (chartEl _); by repeat split. Qed.

Lemma render_data st :
  same_data st (updateChart (updateProgress (renderTable st))).
Proof.
  eapply same_data_trans; [apply renderTable_data|].
  eapply same_data_trans; [apply updateProgress_data|apply updateChart_data].
Qed.

Lemma persist_spec st :
  heap (persist st) = heap st /\ trips (persist st) = trips st
  /\ totalEmissions (persist st) = totalEmissions st
  /\ localStorage (persist st)
     = <[STORAGE_KEY := JSON_stringify (VArr (items st))]> (localStorage st).
Proof. by repeat split. Qed.

Lemma persist_items st : items (persist st) = items st.
Proof. reflexivity. Qed.

(** *** [load] and [init] *)

Lemma load_stored ls doc :
  ls !! STORAGE_KEY = Some (JsonText doc) -> load ls = or_else doc (VArr []).
Proof. unfold load. by intros ->. Qed.

Lemma load_persist st :
  load (localStorage (persist st))
  = VArr (map (fun t => default VNull (written t)) (items st)).
Proof.
  rewrite (load_stored _ (VArr (map (fun t => default VNull (written t)) (items st))));
    [reflexivity|].
  destruct (persist_spec st) as (_ & _ & _ & ->). apply lookup_insert_eq.
Qed.

Lemma init_spec h ls p ts :
  load ls = VArr ts ->
  forallb (fun t => negb (nullish t)) ts = true ->
  exists st, init h ls p = Some st
             /\ items st = ts
             /\ totalEmissions st = sum_loaded ts
             /\ localStorage st = ls
             /\ allocated st.
Proof.
  intros Hl Hn. unfold init. rewrite Hl, Hn. eexists. split; [reflexivity|].
  set (st0 := {| heap := _ |}).
  assert (Hd : same_data st0
                 (updateChart (updateProgress (updateIndexStats (renderTable st0))))).
  { eapply same_data_trans; [apply renderTable_data|].
    eapply same_data_trans; [apply updateIndexStats_data|].
    eapply same_data_trans; [apply updateProgress_data|apply updateChart_data]. }
  assert (Hi : items st0 = ts).
  { unfold items, st0. simpl. by rewrite lookup_insert_eq. }
  split; [by rewrite (same_data_items _ _ Hd)|].
  destruct Hd as (Hh & Ht & -> & ->). repeat split.
  unfold allocated. rewrite Hh, Ht. unfold st0. simpl.
  rewrite lookup_insert_eq. by eexists.
Qed.

(** C5. [load] gives the empty list when the storage key is absent and
    when its value does not parse as JSON; no error reaches the caller:
    the calculator starts with no trip and a total of zero. *)
Theorem load_defaults_to_empty (ls : gmap string text) :
  ls !! STORAGE_KEY = None \/ (exists raw, ls !! STORAGE_KEY = Some (OtherText raw)) ->
  load ls = VArr []
  /\ forall h p, exists st, init h ls p = Some st
                            /\ items st = [] /\ totalEmissions st = zero.
Proof.
  intros Hk.
  assert (Hl : load ls = VArr []).
  { unfold load. destruct Hk as [-> | [raw ->]]; reflexivity. }
  split; [exact Hl|]. intros h p.
  destruct (init_spec h ls p [] Hl eq_refl) as (st & Hi & Hts & Htot & _).
  exists st. repeat split; assumption.
Qed.

Lemma load_defaults_to_empty_witness :
  load ∅ = VArr []
  /\ forall h p, exists st, init h ∅ p = Some st
                            /\ items st = [] /\ totalEmissions st = zero.
Proof. apply (load_defaults_to_empty ∅). left. reflexivity. Defined.

Example load_unparsable :
  load {[ STORAGE_KEY := OtherText "[{" ]} = VArr [].
Proof. reflexivity. Qed.

(** A stored value that parses but is falsy is replaced as well. *)
Example load_falsy :
  load {[ STORAGE_KEY := JsonText (VNum zero) ]} = VArr []
  /\ load {[ STORAGE_KEY := JsonText VNull ]} = VArr [].
Proof. split; reflexivity. Qed.

(** A stored value that is not an array stops the calculator. *)
Example init_not_an_array :
  init ∅ {[ STORAGE_KEY := JsonText (VNum (ofZ 5)) ]} full_page = None.
Proof. reflexivity. Qed.

(** *** [clearTrips] *)

Lemma clearTrips_data st :
  items (clearTrips st) = []
  /\ totalEmissions (clearTrips st) = zero
  /\ localStorage (clearTrips st)
     = <[STORAGE_KEY := JsonText (VArr [])]> (localStorage st)
  /\ allocated (clearTrips st).
Proof.
  unfold clearTrips.
  set (st0 := {| heap := _ |}).
  assert (Hi : items st0 = []).
  { unfold items, st0. simpl. by rewrite lookup_insert_eq. }
  pose proof (render_data (persist st0)) as Hd.
  split; [by rewrite (same_data_items _ _ Hd), persist_items|].
  destruct Hd as (Hh & Ht & -> & ->). split; [reflexivity|]. split.
  - destruct (persist_spec st0) as (_ & _ & _ & ->). by rewrite Hi.
  - unfold allocated. rewrite Hh, Ht. simpl. rewrite lookup_insert_eq. by eexists.
Qed.

(** C7. [clearTrips()] leaves no trip and a total of zero, whatever the
    state before; what it persists loads as the empty list. *)
Theorem clearTrips_resets (st : state) :
  items (clearTrips st) = []
  /\ totalEmissions (clearTrips st) = zero
  /\ load (localStorage (clearTrips st)) = VArr [].
Proof.
  destruct (clearTrips_data st) as (Hi & Ht & Hs & _).
  split; [exact Hi|]. split; [exact Ht|].
  rewrite Hs. rewrite (load_stored _ (VArr [])); [reflexivity|]. apply lookup_insert_eq.
Qed.

(** *** [addTrip] *)

Lemma addTrip_data vehicle distance today st :
  items (addTrip vehicle distance today st)
  = items st ++ [trip today vehicle distance (emissions_for vehicle distance)]
  /\ totalEmissions (addTrip vehicle distance today st)
     = add (totalEmissions st) (emissions_for vehicle distance)
  /\ localStorage (addTrip vehicle distance today st)
     = <[STORAGE_KEY := JSON_stringify
           (VArr (items st ++ [trip today vehicle distance (emissions_for vehicle distance)]))]>
         (localStorage st)
  /\ allocated (addTrip vehicle distance today st).
Proof.
  unfold addTrip.
  set (e := emissions_for vehicle distance).
  set (st0 := {| heap := <[trips st := _]> (heap st) |}).
  assert (Hi : items st0 = items st ++ [trip today vehicle distance e]).
  { unfold items at 1, st0. simpl. by rewrite lookup_insert_eq. }
  pose proof (render_data (persist st0)) as Hd.
  set (st1 := updateChart _) in *.
  assert (Hd' : same_data st1 (set_document
    {| statTrips := statTrips (document st1); statTotal := statTotal (document st1);
       tripTable := tripTable (document st1); progressBar := progressBar (document st1);
       totalResult := assign (toFixed2 (totalEmissions st1) +:+ " kg")
                             (totalResult (document st1));
       tripResult := assign ("Last trip emitted " +:+ toFixed2 e +:+ " kg CO₂")
                            (tripResult (document st1));
       chartEl := chartEl (document st1) |} st1)) by (by repeat split).
  pose proof (same_data_trans _ _ _ Hd Hd') as Hall.
  split; [by rewrite (same_data_items _ _ Hall), persist_items|].
  destruct Hall as (Hh & Ht & -> & ->). split; [reflexivity|]. split.
  - destruct (persist_spec st0) as (_ & _ & _ & ->). by rewrite Hi.
  - unfold allocated. rewrite Hh, Ht. simpl. rewrite lookup_insert_eq. by eexists.
Qed.

(** C10. [addTrip] checks nothing: whatever the vehicle string and the
    distance, zero and negative ones included, it appends exactly one
    record, with emissions [round2(distance * rate)], and adds that amount
    to the total. The rejection of a missing vehicle and of a distance
    that is NaN or not positive is the submit handler's, before it calls
    [addTrip]. *)
Theorem addTrip_does_not_validate :
  (forall vehicle distance today st,
     let emissions := round2 (mul distance (ToNumber (rate vehicle))) in
     items (addTrip vehicle distance today st)
     = items st ++ [trip today vehicle distance emissions]
     /\ totalEmissions (addTrip vehicle distance today st)
        = add (totalEmissions st) emissions)
  /\ (forall vehicle distanceStr today st,
        let distance := ToNumber (from_option VStr VUndefined distanceStr) in
        submit vehicle distanceStr today st
        = if invalid_input vehicle distance then (Refocused, st)
          else (Added, addTrip (default ""%string vehicle) distance today st)).
Proof.
  split.
  - intros vehicle distance today st emissions.
    destruct (addTrip_data vehicle distance today st) as (Hi & Ht & _).
    split; assumption.
  - intros vehicle distanceStr today st distance. unfold submit.
    fold distance.
    replace (rejected vehicle distance) with (invalid_input vehicle distance);
      [reflexivity|].
    unfold rejected, invalid_input.
    destruct vehicle as [v|]; simpl; [|reflexivity].
    by rewrite negb_involutive.
Qed.

(** A negative distance lowers the total. *)
Example addTrip_negative_distance :
  emissions_for "car" (ofZ (-100)) = ofZ (-21)
  /\ totalEmissions (addTrip "car" (ofZ (-100)) "1/11/2026" blank) = ofZ (-21)
  /\ length (items (addTrip "car" (ofZ (-100)) "1/11/2026" blank)) = 1%nat.
Proof. repeat split; vm_compute; reflexivity. Qed.

Example submit_rejects :
  fst (submit (Some "car"%string) (Some "-100"%string) "1/11/2026" blank) = Refocused
  /\ fst (submit (Some "car"%string) (Some "0"%string) "1/11/2026" blank) = Refocused
  /\ fst (submit (Some "car"%string) (Some "ten"%string) "1/11/2026" blank) = Refocused
  /\ fst (submit (Some ""%string) (Some "10"%string) "1/11/2026" blank) = Refocused
  /\ fst (submit None (Some "10"%string) "1/11/2026" blank) = Refocused
  /\ fst (submit (Some "car"%string) None "1/11/2026" blank) = Refocused
  /\ fst (submit (Some "car"%string) (Some "10"%string) "1/11/2026" blank) = Added.
Proof. repeat split; vm_compute; reflexivity. Qed.

(** *** The total and the sum of the fields *)




Lemma sum_emissions_snoc ts date vehicle distance emissions :
  sum_emissions (ts ++ [trip date vehicle distance emissions])
  = add (sum_emissions ts) emissions.
Proof. unfold sum_emissions. by rewrite fold_left_app. Qed.



(** *** What [addTrip] shows *)

Lemma updateChart_document st : document (updateChart st) = document st.
Proof. unfold updateChart. by destruct (chartEl _). Qed.

Lemma updateProgress_document st :
  document (updateProgress st)
  = let p := document st in
    {| statTrips := statTrips p; statTotal := statTotal p; tripTable := tripTable p;
       progressBar := assign (Num.toString (percent (totalEmissions st)) +:+ "%")
                             (progressBar p);
       totalResult := totalResult p; tripResult := tripResult p;
       chartEl := chartEl p |}.
Proof.
  unfold updateProgress.
  destruct (document st) as [? ? ? [w|] ? ? ?] eqn:E; cbn; rewrite ?E; reflexivity.
Qed.

Lemma renderTable_document st :
  document (renderTable st)
  = let p := document st in
    {| statTrips := statTrips p; statTotal := statTotal p;
       tripTable := match tripTable p with
                    | Rows _ => Rows (map row (rev (items st)))
                    | t => t
                    end;
       progressBar := progressBar p;
       totalResult := totalResult p; tripResult := tripResult p;
       chartEl := chartEl p |}.
Proof.
  unfold renderTable.
  destruct (document st) as [? ? [ | | rows] ? ? ? ?] eqn:E; cbn; rewrite ?E; reflexivity.
Qed.

Lemma addTrip_document vehicle distance today st :
  document (addTrip vehicle distance today st)
  = let p := document st in
    let e := emissions_for vehicle distance in
    let ts := items st ++ [trip today vehicle distance e] in
    let total := add (totalEmissions st) e in
    {| statTrips := assign (Num.toString (ofZ (Z.of_nat (length ts)))) (statTrips p);
       statTotal := assign (toFixed2 total +:+ " kg") (statTotal p);
       tripTable := match tripTable p with
                    | Rows _ => Rows (map row (rev ts))
                    | t => t
                    end;
       progressBar := assign (Num.toString (percent total) +:+ "%") (progressBar p);
       totalResult := assign (toFixed2 total +:+ " kg") (totalResult p);
       tripResult := assign ("Last trip emitted " +:+ toFixed2 e +:+ " kg CO₂")
                            (tripResult p);
       chartEl := chartEl p |}.
Proof.
  unfold addTrip.
  set (e := emissions_for vehicle distance).
  set (st0 := {| heap := <[trips st := _]> (heap st) |}).
  assert (Hi : items st0 = items st ++ [trip today vehicle distance e]).
  { unfold items at 1, st0. simpl. by rewrite lookup_insert_eq. }
  pose proof (render_data (persist st0)) as (_ & _ & Htot & _).
  pose proof (same_data_trans _ _ _ (renderTable_data (persist st0))
                (updateProgress_data _)) as (_ & _ & Htot' & _).
  destruct (renderTable_data (persist st0)) as (_ & _ & Htot'' & _).
  cbn [document set_document]. rewrite Htot.
  rewrite updateChart_document, updateProgress_document, renderTable_document.
  cbn zeta. cbn [statTrips statTotal tripTable progressBar totalResult tripResult chartEl].
  rewrite Htot'', persist_items, Hi.
  unfold persist, updateIndexStats, set_document.
  cbn [document statTrips statTotal tripTable progressBar totalResult
       tripResult chartEl totalEmissions].
  change (items {| heap := heap st0; trips := trips st0; totalEmissions := _;
                   chart := _; localStorage := _; document := _ |})
    with (items st0).
  rewrite Hi. reflexivity.
Qed.

(** C9. From a state with no trip and a total of zero, adding a trip by
    car over 100 km records emissions of exactly 21 (shown as 21.00 kg),
    leaves a list of one trip and a table of one row, and sets the
    progress bar to exactly 42 percent. *)
Theorem first_trip_by_car (today : string) (st : state) :
  items st = [] ->
  totalEmissions st = zero ->
  let st' := addTrip "car" (ofZ 100) today st in
  items st' = [trip today "car" (ofZ 100) (ofZ 21)]
  /\ toFixed2 (ofZ 21) = "21.00"%string
  /\ tripResult (document st')
     = assign "Last trip emitted 21.00 kg CO₂" (tripResult (document st))
  /\ totalEmissions st' = ofZ 21
  /\ percent (totalEmissions st') = ofZ 42
  /\ progressBar (document st') = assign "42%" (progressBar (document st))
  /\ (forall rows, tripTable (document st) = Rows rows ->
        exists r, tripTable (document st') = Rows [r]).
Proof.
  intros Hi Ht st'.
  destruct (addTrip_data "car" (ofZ 100) today st) as (Hi' & Ht' & _).
  pose proof (addTrip_document "car" (ofZ 100) today st) as Hd.
  cbv zeta in Hd.
  fold st' in Hi', Ht', Hd. rewrite Hi in Hi', Hd. rewrite Ht in Ht', Hd.
  assert (He : emissions_for "car" (ofZ 100) = ofZ 21) by (vm_compute; reflexivity).
  rewrite He in Hi', Ht', Hd.
  assert (Hsum : add zero (ofZ 21) = ofZ 21) by (vm_compute; reflexivity).
  rewrite Hsum in Ht', Hd.
  split; [exact Hi'|]. split; [vm_compute; reflexivity|].
  split; [by rewrite Hd|]. split; [exact Ht'|].
  split; [rewrite Ht'; vm_compute; reflexivity|].
  split; [by rewrite Hd|].
  intros rows Hrows. rewrite Hd. cbn zeta. cbn [tripTable]. rewrite Hrows.
  eexists. reflexivity.
Qed.

Lemma first_trip_by_car_witness :
  let st' := addTrip "car" (ofZ 100) "1/11/2026" blank in
  items st' = [trip "1/11/2026" "car" (ofZ 100) (ofZ 21)]
  /\ toFixed2 (ofZ 21) = "21.00"%string
  /\ tripResult (document st')
     = assign "Last trip emitted 21.00 kg CO₂" (tripResult (document blank))
  /\ totalEmissions st' = ofZ 21
  /\ percent (totalEmissions st') = ofZ 42
  /\ progressBar (document st') = assign "42%" (progressBar (document blank))
  /\ (forall rows, tripTable (document blank) = Rows rows ->
        exists r, tripTable (document st') = Rows [r]).
Proof. apply (first_trip_by_car "1/11/2026" blank); reflexivity. Defined.

(** The same trip entered through the form of a freshly loaded page. *)
Example first_trip_through_the_form :
  exists st0 st1,
    init ∅ ∅ full_page = Some st0
    /\ submit (Some "car"%string) (Some "100"%string) "1/11/2026" st0 = (Added, st1)
    /\ items st1 = [trip "1/11/2026" "car" (ofZ 100) (ofZ 21)]
    /\ document st1
       = {| statTrips := Some "1"%string; statTotal := Some "21.00 kg"%string;
            tripTable := Rows ["<td>1/11/2026</td><td>car</td><td>100</td><td>21</td>"%string];
            progressBar := Some "42%"%string;
            totalResult := Some "21.00 kg"%string;
            tripResult := Some "Last trip emitted 21.00 kg CO₂"%string;
            chartEl := true |}.
Proof.
  eexists _, _. split; [reflexivity|]. split; [reflexivity|].
  split; vm_compute; reflexivity.
Qed.

(** *** Rates *)

Lemma rate_known :
  rate "car" = VNum (decimal false 21 (-2))
  /\ rate "motorbike" = VNum (decimal false 10 (-2))
  /\ rate "bus" = VNum (decimal false 5 (-2))
  /\ rate "bicycle" = VNum zero.
Proof. repeat split; vm_compute; reflexivity. Qed.

Lemma emissions_known distance :
  emissions_for "car" distance = round2 (mul distance (decimal false 21 (-2)))
  /\ emissions_for "motorbike" distance = round2 (mul distance (decimal false 10 (-2)))
  /\ emissions_for "bus" distance = round2 (mul distance (decimal false 5 (-2)))
  /\ emissions_for "bicycle" distance = round2 (mul distance zero).
Proof.
  destruct rate_known as (Hcar & Hmotorbike & Hbus & Hbicycle).
  unfold emissions_for. by rewrite Hcar, Hmotorbike, Hbus, Hbicycle.
Qed.

(** A name that is neither a key of the table nor a member of
    [Object.prototype] has rate zero, and a finite distance then gives
    emissions of zero. *)
Lemma rate_unknown vehicle :
  get EMISSION_RATES vehicle = VUndefined -> rate vehicle = VNum zero.
Proof. unfold rate. by intros ->. Qed.

Lemma emissions_unknown vehicle distance :
  get EMISSION_RATES vehicle = VUndefined ->
  isFinite distance = true ->
  emissions_for vehicle distance = zero.
Proof.
  intros Hv Hd. unfold emissions_for. rewrite (rate_unknown _ Hv).
  destruct distance as [[|] | | | [|] m e]; try discriminate; reflexivity.
Qed.

(** C1, at a vehicle name that the rate table inherits. The lookup of
    [constructor] finds the function [Object], which is not falsy, so the
    default of zero is not taken: the product is NaN and so are the
    emissions recorded for the trip, where the claim has a rate of zero
    and emissions of zero. *)
Theorem inherited_name_is_not_rated_zero :
  rate "constructor" = VBuiltin "Object"
  /\ emissions_for "constructor" (ofZ 10) = nan
  /\ items (addTrip "constructor" (ofZ 10) "1/11/2026" blank)
     = [trip "1/11/2026" "constructor" (ofZ 10) nan]
  /\ totalEmissions (addTrip "constructor" (ofZ 10) "1/11/2026" blank) = nan.
Proof. repeat split; vm_compute; reflexivity. Qed.

(** *** Saving and loading *)

Lemma load_persist_storable st :
  forallb storable (items st) = true ->
  load (localStorage (persist st)) = VArr (items st).
Proof.
  intros Hs. rewrite load_persist. f_equal.
  induction (items st) as [|t ts IH]; [reflexivity|].
  simpl in Hs. apply andb_prop in Hs as [Ht Hts]. simpl.
  rewrite (written_storable t Ht). simpl. f_equal. by apply IH.
Qed.

Lemma stringify_written ts :
  JSON_stringify (VArr (map (fun t => default VNull (written t)) ts))
  = JSON_stringify (VArr ts).
Proof.
  unfold JSON_stringify.
  change (written (VArr ?l))
    with (Some (VArr (map (fun t => default VNull (written t)) l))).
  cbv beta iota. do 2 f_equal. rewrite map_map. apply map_ext.
  intros t. by rewrite written_twice.
Qed.

(** C4, as the code has it. A list of storable values (no number that is
    infinite, NaN or negative zero) is loaded back as it was saved; and
    once a list is saved, loading it and saving it again leaves the
    storage as it is. *)
Theorem save_then_load_of_storable_trips :
  (forall st,
     forallb storable (items st) = true ->
     load (localStorage (persist st)) = VArr (items st))
  /\ (forall st st',
        load (localStorage (persist st)) = VArr (items st') ->
        localStorage st' = localStorage (persist st) ->
        localStorage (persist st') = localStorage st').
Proof.
  split; [exact load_persist_storable|].
  intros st st' Hl Hs.
  destruct (persist_spec st') as (_ & _ & _ & ->).
  rewrite Hs. destruct (persist_spec st) as (_ & _ & _ & ->).
  rewrite load_persist in Hl. injection Hl as Hl. rewrite <- Hl.
  rewrite stringify_written. apply insert_insert_eq.
Qed.

Lemma save_then_load_of_storable_trips_witness :
  load (localStorage (persist (addTrip "car" (ofZ 100) "1/11/2026" blank)))
  = VArr (items (addTrip "car" (ofZ 100) "1/11/2026" blank))
  /\ localStorage (persist (reopened (addTrip "car" infinity "1/11/2026" blank)))
     = localStorage (reopened (addTrip "car" infinity "1/11/2026" blank)).
Proof.
  destruct save_then_load_of_storable_trips as (Hload & Hsave).
  split.
  - apply Hload. reflexivity.
  - apply (Hsave (addTrip "car" infinity "1/11/2026" blank)); reflexivity.
Defined.

(** C4 fails as stated: a distance of [Infinity] passes the form's test,
    and the trip recorded for it is stored with [null] for its distance
    and emissions, so what is loaded is not the list that was saved. *)
Lemma save_then_load_loses_infinity :
  let st := snd (submit (Some "car"%string) (Some "Infinity"%string) "1/11/2026" blank) in
  items st = [trip "1/11/2026" "car" infinity infinity]
  /\ load (localStorage (persist st))
     = VArr [VObj [ ("date", VStr "1/11/2026"); ("vehicle", VStr "car");
                    ("distance", VNull); ("emissions", VNull) ]%string]
  /\ load (localStorage (persist st)) <> VArr (items st).
Proof.
  cbv zeta. split; [vm_compute; reflexivity|].
  split; [vm_compute; reflexivity|].
  vm_compute. discriminate.
Qed.

(** *** The progress bar *)

(** C6. Whatever the total, the percentage of the progress bar is
    [min(total / 50 * 100, 100)]; and for every total that is at least 50
    it is exactly 100. *)
Theorem progress_is_clamped_percentage :
  (forall st,
     progressBar (document (updateProgress st))
     = assign (Num.toString
                 (Math_min (mul (div (totalEmissions st) (ofZ 50)) (ofZ 100)) (ofZ 100))
               +:+ "%")
              (progressBar (document st)))
  /\ (forall total,
        valid total = true -> le (ofZ 50) total = true -> percent total = ofZ 100).
Proof.
  split.
  - intros st. by rewrite updateProgress_document.
  - intros total Hv Hle. by apply NumFacts.clamp.
Qed.

Lemma progress_is_clamped_percentage_witness :
  percent (ofZ 50) = ofZ 100 /\ percent (decimal false 12345 (-2)) = ofZ 100.
Proof.
  destruct progress_is_clamped_percentage as [_ Hclamp].
  split; apply Hclamp; reflexivity.
Defined.

Example percent_values :
  percent (ofZ 21) = ofZ 42
  /\ percent (ofZ 50) = ofZ 100
  /\ percent infinity = ofZ 100
  /\ percent zero = zero
  /\ percent nan = nan.
Proof. repeat split; vm_compute; reflexivity. Qed.

(** *** [getTrips] *)

Lemma getTrips_fresh st : allocated st -> fst (getTrips st) <> trips st.
Proof.
  intros Ha Heq. apply (is_fresh (dom (heap st))).
  change (fresh (dom (heap st))) with (fst (getTrips st)). rewrite Heq.
  by apply elem_of_dom.
Qed.

Lemma getTrips_items st : allocated st -> items (snd (getTrips st)) = items st.
Proof.
  intros Ha. unfold items, getTrips. simpl.
  rewrite lookup_insert_ne; [reflexivity|]. exact (getTrips_fresh st Ha).
Qed.

Lemma mutate_other l f st : l <> trips st -> items (mutate l f st) = items st.
Proof. intros Hne. unfold items, mutate. simpl. by rewrite lookup_alter_ne. Qed.

(** C8. [getTrips()] returns a copy: a new array with the elements of the
    internal one. Whatever its holder does to it (appending, emptying,
    any replacement of its elements) leaves the internal list and the
    running total as they were. *)
Theorem getTrips_returns_a_copy (st : state) :
  allocated st ->
  let l := fst (getTrips st) in
  let st' := snd (getTrips st) in
  heap st' !! l = Some (items st)
  /\ l <> trips st'
  /\ items st' = items st
  /\ totalEmissions st' = totalEmissions st
  /\ forall f,
       heap (mutate l f st') !! l = Some (f (items st))
       /\ items (mutate l f st') = items st
       /\ totalEmissions (mutate l f st') = totalEmissions st.
Proof.
  intros Ha l st'.
  pose proof (getTrips_fresh st Ha) as Hne. fold l in Hne.
  pose proof (getTrips_items st Ha) as Hi. fold st' in Hi.
  assert (Hl : heap st' !! l = Some (items st)) by apply lookup_insert_eq.
  split; [exact Hl|]. split; [exact Hne|]. split; [exact Hi|].
  split; [reflexivity|]. intros f. split; [|split; [|reflexivity]].
  - unfold mutate. simpl. by rewrite lookup_alter_eq, lookup_insert_eq.
  - by rewrite (mutate_other l f st' Hne).
Qed.

Lemma getTrips_returns_a_copy_witness :
  let st := addTrip "car" (ofZ 100) "1/11/2026" blank in
  let l := fst (getTrips st) in
  let st' := snd (getTrips st) in
  heap st' !! l = Some (items st)
  /\ l <> trips st'
  /\ items st' = items st
  /\ totalEmissions st' = totalEmissions st
  /\ forall f,
       heap (mutate l f st') !! l = Some (f (items st))
       /\ items (mutate l f st') = items st
       /\ totalEmissions (mutate l f st') = totalEmissions st.
Proof.
  apply (getTrips_returns_a_copy (addTrip "car" (ofZ 100) "1/11/2026" blank)).
  vm_compute. eexists. reflexivity.
Defined.

(** Emptying the returned array, or pushing onto it, is such a change. *)
Example getTrips_then_empty :
  let st := addTrip "car" (ofZ 100) "1/11/2026" blank in
  let l := fst (getTrips st) in
  let st' := mutate l (fun _ => []) (snd (getTrips st)) in
  heap st' !! l = Some [] /\ length (items st') = 1%nat.
Proof. split; vm_compute; reflexivity. Qed.

(** *** Every state the calculator reaches *)

Lemma step_allocated st st' : step st st' -> allocated st -> allocated st'.
Proof.
  intros Hs Ha. destruct Hs as [vehicle distanceStr today st| st | f st].
  - unfold submit. destruct (rejected _ _); [exact Ha|].
    by destruct (addTrip_data (default ""%string vehicle)
                   (ToNumber (from_option VStr VUndefined distanceStr)) today st)
      as (_ & _ & _ & ?).
  - by destruct (clearTrips_data st) as (_ & _ & _ & ?).
  - pose proof (getTrips_fresh st Ha) as Hne.
    unfold allocated, mutate, getTrips in *. simpl in *.
    rewrite lookup_alter_ne by exact Hne. by rewrite lookup_insert_ne.
Qed.

Lemma reachable_allocated st : reachable st -> allocated st.
Proof.
  induction 1 as [h ls p st Hi | st st' _ IH Hs].
  - unfold init in Hi. destruct (load ls) as [ | | | | |ts| | ] eqn:El; try discriminate.
    destruct (forallb _ ts) eqn:En; [|discriminate].
    destruct (init_spec h ls p ts El En) as (st1 & Hi1 & _ & _ & _ & Ha).
    unfold init in Hi1. rewrite El, En in Hi1. congruence.
  - exact (step_allocated _ _ Hs IH).
Qed.

(** The total stays the sum of the fields through every step. *)
Lemma step_consistent st st' :
  step st st' -> allocated st -> consistent st -> consistent st'.
Proof.
  unfold consistent. intros Hs Ha Hc.
  destruct Hs as [vehicle distanceStr today st| st | f st].
  - unfold submit. destruct (rejected _ _); [exact Hc|]. cbn [snd].
    destruct (addTrip_data (default ""%string vehicle)
                (ToNumber (from_option VStr VUndefined distanceStr)) today st)
      as (-> & -> & _).
    by rewrite sum_emissions_snoc, Hc.
  - by destruct (clearTrips_data st) as (-> & -> & _).
  - rewrite mutate_other by exact (getTrips_fresh st Ha).
    by rewrite getTrips_items.
Qed.

End CalculatorFacts.

(** ** More on the carousel *)

Module CarouselMore.
Import Carousel CarouselFacts.







(** *** [next] and [prev] together *)

Lemma wrap_small n c : 0 <= n < c -> wrap n c = n.
Proof. intros H. rewrite wrap_mod by lia. apply Z.mod_small. lia. Qed.

Lemma wrap_succ_pred n c :
  0 < c -> wrap (wrap (n + 1) c - 1) c = n mod c /\ wrap (wrap (n - 1) c + 1) c = n mod c.
Proof.
  intros Hc. rewrite !wrap_mod by lia. split.
  - rewrite Zminus_mod_idemp_l. f_equal. lia.
  - rewrite Zplus_mod_idemp_l. f_equal. lia.
Qed.

(** X2. [prev] undoes [next] and [next] undoes [prev]: from an index in
    range, one after the other comes back to the same index, the wrap
    from the last slide to the first included. *)
Theorem prev_undoes_next (st : state) :
  0 <= current st < count st ->
  (exists s1 s2, next st = Some s1 /\ prev s1 = Some s2 /\ current s2 = current st)
  /\ (exists s1 s2, prev st = Some s1 /\ next s1 = Some s2 /\ current s2 = current st).
Proof.
  intros Hc. assert (Hn : 0 < count st) by lia.
  destruct (wrap_succ_pred (current st) (count st) Hn) as [Hsp Hps].
  rewrite Z.mod_small in Hsp, Hps by lia.
  unfold next, prev. split.
  - destruct (goTo_spec (current st + 1) true st Hn) as (s1 & Hg1 & Hc1 & Hn1).
    destruct (goTo_spec (current s1 - 1) true s1 ltac:(lia)) as (s2 & Hg2 & Hc2 & _).
    exists s1, s2. split; [exact Hg1|]. split; [exact Hg2|].
    by rewrite Hc2, Hc1, Hn1.
  - destruct (goTo_spec (current st - 1) true st Hn) as (s1 & Hg1 & Hc1 & Hn1).
    destruct (goTo_spec (current s1 + 1) true s1 ltac:(lia)) as (s2 & Hg2 & Hc2 & _).
    exists s1, s2. split; [exact Hg1|]. split; [exact Hg2|].
    by rewrite Hc2, Hc1, Hn1.
Qed.

Lemma prev_undoes_next_witness :
  (exists s1 s2, next started = Some s1 /\ prev s1 = Some s2
                 /\ current s2 = current started)
  /\ (exists s1 s2, prev started = Some s1 /\ next s1 = Some s2
                    /\ current s2 = current started).
Proof.
  apply (prev_undoes_next started). vm_compute. split; [discriminate|reflexivity].
Defined.

(** X3. Calling [next] [k] times from an index in range moves the index
    by [k] modulo the number of slides; as many calls as there are slides
    come back to the slide they started from. *)
Theorem advance_cycles (k : nat) (st : state) :
  0 <= current st < count st ->
  (exists st', advance k st = Some st'
               /\ current st' = (current st + Z.of_nat k) mod count st
               /\ count st' = count st)
  /\ (exists st', advance (length (slides st)) st = Some st'
                  /\ current st' = current st).
Proof.
  assert (Hgen : forall k st, 0 <= current st < count st ->
    exists st', advance k st = Some st'
                /\ current st' = (current st + Z.of_nat k) mod count st
                /\ count st' = count st).
  { clear. induction k as [|k IH]; intros st Hc.
    - exists st. simpl. rewrite Z.add_0_r, Z.mod_small by lia. by repeat split.
    - assert (Hn : 0 < count st) by lia.
      destruct (goTo_spec (current st + 1) true st Hn) as (s1 & Hg1 & Hc1 & Hn1).
      pose proof (wrap_range (current st + 1) _ Hn) as Hr.
      destruct (IH s1) as (st' & Ha & Hc' & Hn'); [rewrite Hc1, Hn1; exact Hr|].
      exists st'. simpl. unfold next at 1. rewrite Hg1.
      split; [exact Ha|]. split; [|congruence].
      rewrite Hc', Hc1, Hn1, wrap_mod, Zplus_mod_idemp_l by lia. f_equal. lia. }
  intros Hc. split; [by apply Hgen|].
  destruct (Hgen (length (slides st)) st Hc) as (st' & Ha & Hc' & _).
  exists st'. split; [exact Ha|]. rewrite Hc'. fold (count st).
  rewrite <- Zplus_mod_idemp_r, Z.mod_same, Z.add_0_r by lia.
  apply Z.mod_small. lia.
Qed.

Lemma advance_cycles_witness :
  (exists st', advance 7 started = Some st'
               /\ current st' = (current started + Z.of_nat 7) mod count started
               /\ count st' = count started)
  /\ (exists st', advance (length (slides started)) started = Some st'
                  /\ current st' = current started).
Proof.
  apply (advance_cycles 7 started). vm_compute. split; [discriminate|reflexivity].
Defined.

(** *** What [goTo] changes *)

(** X4. [goTo] changes no slide but the one it shows, and that one only
    by giving a deferred image its source; the number of slides and every
    caption stay. For [n] already within range the slide shown is slide
    [n] itself, as when its indicator is clicked. *)
Theorem goTo_changes_only_the_shown_slide (n : Z) (announce : bool) (st st' : state) :
  goTo n announce st = Some st' ->
  length (slides st') = length (slides st)
  /\ (forall j, j <> Z.to_nat (current st') -> slides st' !! j = slides st !! j)
  /\ slides st' !! Z.to_nat (current st') = reveal <$> slides st !! Z.to_nat (current st')
  /\ (forall j, (figcaption <$> slides st' !! j) = (figcaption <$> slides st !! j))
  /\ (0 <= n < count st -> current st' = n).
Proof.
  unfold goTo. destruct (slides st !! _) as [s|] eqn:Hs; [|discriminate].
  intros [= <-]. simpl.
  pose proof (lookup_lt_Some _ _ _ Hs) as Hlt.
  split; [by rewrite length_insert|].
  split; [intros j Hj; by rewrite list_lookup_insert_ne|].
  split; [by rewrite list_lookup_insert_eq, Hs|].
  split; [|intros Hn; by apply wrap_small].
  intros j. destruct (decide (Z.to_nat (wrap n (count st)) = j)) as [<-|Hne].
  - rewrite list_lookup_insert_eq, Hs by exact Hlt. simpl. f_equal.
    unfold reveal. destruct (img s) as [[? [d|]]|]; try reflexivity.
    by destruct (String.eqb d "").
  - by rewrite list_lookup_insert_ne.
Qed.

Lemma goTo_changes_only_the_shown_slide_witness :
  let shown := default started (goTo 1 true started) in
  length (slides shown) = length (slides started)
  /\ (forall j, j <> Z.to_nat (current shown) -> slides shown !! j = slides started !! j)
  /\ slides shown !! Z.to_nat (current shown)
     = reveal <$> slides started !! Z.to_nat (current shown)
  /\ (forall j, (figcaption <$> slides shown !! j) = (figcaption <$> slides started !! j))
  /\ (0 <= 1 < count started -> current shown = 1).
Proof.
  apply (goTo_changes_only_the_shown_slide 1 true started
           (default started (goTo 1 true started))).
  reflexivity.
Defined.

Lemma prepare_settled s : settled s = true -> prepare s = s.
Proof.
  unfold settled, prepare. destruct (img s) as [[[u|] [d|]]|]; try discriminate;
    [|reflexivity].
  simpl. by intros ->%negb_true_iff.
Qed.

Lemma reveal_settled s : settled s = true -> reveal s = s.
Proof.
  unfold settled, reveal. by destruct (img s) as [[[u|] [d|]]|].
Qed.

Lemma goTo_settled n announce st st' :
  forallb settled (slides st) = true ->
  goTo n announce st = Some st' -> slides st' = slides st.
Proof.
  intros Hall. unfold goTo. destruct (slides st !! _) as [s|] eqn:Hs; [|discriminate].
  intros [= <-]. simpl. apply list_insert_id. rewrite Hs. f_equal. symmetry.
  apply reveal_settled.
  rewrite forallb_forall in Hall. apply Hall.
  apply list_elem_of_In. eapply list_elem_of_lookup_2. exact Hs.
Qed.

Lemma handle_settled e st st' :
  forallb settled (slides st) = true ->
  handle e st = Some st' -> slides st' = slides st.
Proof.
  intros Hall He.
  assert (Hnav : forall o, startAutoplay <$> o = Some st' ->
                 (forall s1, o = Some s1 -> slides s1 = slides st) ->
                 slides st' = slides st).
  { intros [s1|] Heq Hin; [|discriminate]. injection Heq as <-.
    exact (Hin s1 eq_refl). }
  destruct e; simpl in He;
    try (eapply Hnav; [exact He|]; intros s1 Hg; exact (goTo_settled _ _ _ _ Hall Hg));
    try (by injection He as <-).
  destruct (autoplayId st); [exact (goTo_settled _ _ _ _ Hall He)|].
  by injection He as <-.
Qed.

(** X5. When every image of the carousel comes with a source and no
    [data-src], nothing the script does changes a slide: the slides after
    the start and after any sequence of events are those of the page. *)
Theorem settled_slides_are_never_changed (sl : list slide) (wrapper : bool)
    (es : list event) (st st' : state) :
  forallb settled sl = true ->
  init sl wrapper = Some st ->
  run es st = Some st' ->
  slides st = sl /\ slides st' = sl.
Proof.
  intros Hall Hi Hrun.
  assert (Hst : slides st = sl).
  { assert (Hmap : map prepare sl = sl).
    { clear -Hall. induction sl as [|s sl IH]; [reflexivity|].
      simpl in *. apply andb_prop in Hall as [Hs Hsl].
      by rewrite (prepare_settled s Hs), IH. }
    unfold init in Hi. rewrite Hmap in Hi.
    destruct (goTo 0 false _) as [s1|] eqn:Hg; [|discriminate].
    injection Hi as <-. simpl.
    refine (goTo_settled 0 false _ s1 _ Hg). exact Hall. }
  split; [exact Hst|]. rewrite <- Hst in *. clear Hi Hst.
  revert st Hall Hrun. induction es as [|e es IH]; intros st Hall Hrun.
  - by injection Hrun as <-.
  - simpl in Hrun. destruct (handle e st) as [s1|] eqn:He; [|discriminate].
    pose proof (handle_settled _ _ _ Hall He) as Hs1.
    rewrite <- Hs1. apply IH; [by rewrite Hs1|exact Hrun].
Qed.

Lemma settled_slides_are_never_changed_witness :
  slides started = slides three_slides
  /\ slides (default started
               (run [ClickPrev; ArrowRight; Enter; ClickIndicator 2; Interval] started))
     = slides three_slides.
Proof.
  apply (settled_slides_are_never_changed (slides three_slides) true
           [ClickPrev; ArrowRight; Enter; ClickIndicator 2; Interval]);
    reflexivity.
Defined.


(** *** Announcements *)





(** *** Deferred images *)

(** X8. The preparation for lazy loading never defers an image that has
    a source: such a slide is left as it is. An image with no [src]
    attribute is given the deferred source [null], and that text becomes
    its source when the slide is shown. *)
Theorem prepare_defers_no_image_with_a_source (s : slide) (i : image) :
  img s = Some i ->
  (forall u, src i = Some u -> u <> ""%string -> prepare s = s)
  /\ (src i = None ->
      img (prepare s) = Some {| src := None; data_src := Some "null"%string |}
      /\ img (reveal (prepare s))
         = Some {| src := Some "null"%string; data_src := Some "null"%string |}).
Proof.
  intros Hi. unfold prepare. rewrite Hi. split.
  - intros u -> Hu. cbn. by destruct (String.eqb_spec u "").
  - by intros ->.
Qed.

Lemma prepare_defers_no_image_with_a_source_witness :
  let s := {| img := Some {| src := None; data_src := None |};
              figcaption := None |} in
  img (reveal (prepare s))
  = Some {| src := Some "null"%string; data_src := Some "null"%string |}.
Proof.
  intros s.
  destruct (prepare_defers_no_image_with_a_source s {| src := None; data_src := None |})
    as (_ & H); [reflexivity|].
  by destruct H.
Defined.

End CarouselMore.

(** ** More on the calculator *)

Module CalculatorMore.
Import Num JS Calculator JSFacts CalculatorFacts.

(** *** The page and the data *)

Ltac shown :=
  unfold shows_count, shows_total, shows_rows, shows_progress, shows_chart;
  cbn [document statTrips statTotal tripTable progressBar totalResult tripResult
       chartEl chart set_document items heap trips totalEmissions assign
       fmap option_fmap option_map].

Lemma updateIndexStats_shown st :
  let st' := updateIndexStats st in
  shows_count st' /\ shows_total st'
  /\ (shows_rows st -> shows_rows st')
  /\ (shows_progress st -> shows_progress st')
  /\ (shows_chart st -> shows_chart st').
Proof.
  cbv zeta. unfold updateIndexStats. shown.
  destruct (document st) as [[a|] [b|] t w c d e] eqn:E; shown; rewrite ?E; shown;
    repeat split; intros; simplify_eq; auto.
Qed.

Lemma renderTable_shown st :
  let st' := renderTable st in
  shows_rows st'
  /\ (shows_count st -> shows_count st')
  /\ (shows_total st -> shows_total st')
  /\ (shows_progress st -> shows_progress st')
  /\ (shows_chart st -> shows_chart st').
Proof.
  cbv zeta. unfold renderTable. shown.
  destruct (document st) as [a b [ | |rows] w c d e] eqn:E; shown; rewrite ?E; shown;
    repeat split; intros; simplify_eq; auto.
Qed.

Lemma updateProgress_shown st :
  let st' := updateProgress st in
  shows_progress st'
  /\ (shows_count st -> shows_count st')
  /\ (shows_total st -> shows_total st')
  /\ (shows_rows st -> shows_rows st')
  /\ (shows_chart st -> shows_chart st').
Proof.
  cbv zeta. unfold updateProgress. shown.
  destruct (document st) as [a b t [w|] c d e] eqn:E; shown; rewrite ?E; shown;
    repeat split; intros; simplify_eq; auto.
Qed.

Lemma updateChart_shown st :
  let st' := updateChart st in
  shows_chart st'
  /\ (shows_count st -> shows_count st')
  /\ (shows_total st -> shows_total st')
  /\ (shows_rows st -> shows_rows st')
  /\ (shows_progress st -> shows_progress st').
Proof.
  cbv zeta. unfold updateChart.
  destruct (chartEl (document st)) eqn:E; shown;
    repeat split; intros; simplify_eq; auto; congruence.
Qed.

Lemma render_after_load_in_sync st :
  in_sync (updateChart (updateProgress (updateIndexStats (renderTable st)))).
Proof.
  destruct (renderTable_shown st) as (Hr & _).
  destruct (updateIndexStats_shown (renderTable st)) as (Hc & Ht & Hr1 & _).
  destruct (updateProgress_shown (updateIndexStats (renderTable st)))
    as (Hp & Hc1 & Ht1 & Hr2 & _).
  destruct (updateChart_shown (updateProgress (updateIndexStats (renderTable st))))
    as (Hch & Hc2 & Ht2 & Hr3 & Hp1).
  unfold in_sync. auto 10.
Qed.

Lemma render_after_persist_in_sync st :
  in_sync (updateChart (updateProgress (renderTable (updateIndexStats st)))).
Proof.
  destruct (updateIndexStats_shown st) as (Hc & Ht & _).
  destruct (renderTable_shown (updateIndexStats st)) as (Hr & Hc1 & Ht1 & _).
  destruct (updateProgress_shown (renderTable (updateIndexStats st)))
    as (Hp & Hc2 & Ht2 & Hr1 & _).
  destruct (updateChart_shown (updateProgress (renderTable (updateIndexStats st))))
    as (Hch & Hc3 & Ht3 & Hr2 & Hp1).
  unfold in_sync. auto 10.
Qed.

Lemma in_sync_result_lines st a b :
  in_sync st ->
  in_sync (set_document
    {| statTrips := statTrips (document st); statTotal := statTotal (document st);
       tripTable := tripTable (document st); progressBar := progressBar (document st);
       totalResult := a; tripResult := b; chartEl := chartEl (document st) |} st).
Proof. intros H. exact H. Qed.

Lemma addTrip_in_sync vehicle distance today st :
  in_sync (addTrip vehicle distance today st).
Proof.
  unfold addTrip, persist. apply in_sync_result_lines, render_after_persist_in_sync.
Qed.

Lemma clearTrips_in_sync st : in_sync (clearTrips st).
Proof. unfold clearTrips, persist. apply render_after_persist_in_sync. Qed.

Lemma step_in_sync st st' : step st st' -> allocated st -> in_sync st -> in_sync st'.
Proof.
  intros Hs Ha Hin. destruct Hs as [vehicle distanceStr today st| st | f st].
  - unfold submit. destruct (rejected _ _); [exact Hin|]. apply addTrip_in_sync.
  - apply clearTrips_in_sync.
  - unfold in_sync, shows_count, shows_total, shows_rows, shows_progress,
      shows_chart in *.
    rewrite (mutate_other (fst (getTrips st)) f (snd (getTrips st))
               (getTrips_fresh st Ha)), (getTrips_items st Ha).
    exact Hin.
Qed.

(** X9. In every state the calculator reaches, the page shows the data:
    the trip count and the total of the statistics, one table row for
    each trip with the latest first, the width of the progress bar, and
    the labels and values of the chart are those of the current list and
    total, for each of these elements that exists. *)
Theorem reachable_in_sync (st : state) : reachable st -> in_sync st.
Proof.
  induction 1 as [h ls p st Hi | st st' Hr IH Hs].
  - unfold init in Hi. destruct (load ls) as [ | | | | |ts| | ]; try discriminate.
    destruct (forallb _ ts); [|discriminate]. injection Hi as <-.
    apply render_after_load_in_sync.
  - exact (step_in_sync _ _ Hs (reachable_allocated _ Hr) IH).
Qed.

Lemma reachable_in_sync_witness :
  in_sync (snd (submit (Some "car"%string) (Some "100"%string) "1/11/2026"
                       (reopened blank))).
Proof.
  apply reachable_in_sync.
  apply (reach_step (reopened blank)); [|apply step_submit].
  apply (reach_init ∅ (localStorage blank) full_page). reflexivity.
Defined.

(** *** Closing the page and opening it again *)





(** *** What a step does to the list *)



(** *** When the calculator does not start *)


(** *** The result lines *)

(** X13. [clearTrips] never writes the two result lines of the form: the
    statistics show a total of [0.00 kg] while [#totalResult] and
    [#tripResult] keep the texts of the last trip added. *)
Theorem clearTrips_keeps_result_lines :
  (forall st,
     totalResult (document (clearTrips st)) = totalResult (document st)
     /\ tripResult (document (clearTrips st)) = tripResult (document st)
     /\ statTotal (document (clearTrips st)) = assign "0.00 kg" (statTotal (document st)))
  /\ (forall vehicle distance today st,
        let st' := clearTrips (addTrip vehicle distance today st) in
        totalEmissions st' = zero
        /\ totalResult (document st')
           = assign (toFixed2 (add (totalEmissions st) (emissions_for vehicle distance))
                     +:+ " kg") (totalResult (document st))).
Proof.
  assert (Hclear : forall st,
     totalResult (document (clearTrips st)) = totalResult (document st)
     /\ tripResult (document (clearTrips st)) = tripResult (document st)
     /\ statTotal (document (clearTrips st)) = assign "0.00 kg" (statTotal (document st))).
  { intros st. unfold clearTrips.
    rewrite updateChart_document, updateProgress_document, renderTable_document.
    by repeat split. }
  split; [exact Hclear|].
  intros vehicle distance today st st'. subst st'.
  split; [by destruct (clearTrips_data (addTrip vehicle distance today st)) as (_ & -> & _)|].
  destruct (Hclear (addTrip vehicle distance today st)) as (-> & _).
  rewrite addTrip_document. reflexivity.
Qed.

(** *** The submit handler *)

(** X14. A submission is accepted only with a vehicle that is not empty
    and a distance above zero, and then one trip with that vehicle and
    distance is appended; a refused submission leaves the whole state as
    it is. *)
Theorem accepted_submission_is_valid (vehicle distanceStr : option string)
    (today : string) (st : state) :
  let distance := ToNumber (from_option VStr VUndefined distanceStr) in
  (fst (submit vehicle distanceStr today st) = Added ->
   exists v, vehicle = Some v /\ v <> ""%string
             /\ lt zero distance = true
             /\ items (snd (submit vehicle distanceStr today st))
                = items st ++ [trip today v distance (emissions_for v distance)])
  /\ (fst (submit vehicle distanceStr today st) = Refocused ->
      snd (submit vehicle distanceStr today st) = st).
Proof.
  intros distance. unfold submit. fold distance.
  destruct (rejected vehicle distance) eqn:Er; cbn [fst snd].
  - split; [discriminate|done].
  - split; [|discriminate]. intros _.
    unfold rejected in Er.
    apply orb_false_elim in Er as [Er Hle].
    apply orb_false_elim in Er as [Hv Hn].
    destruct vehicle as [v|]; [|discriminate Hv].
    exists v. split; [reflexivity|]. split.
    { intros ->. discriminate Hv. }
    split.
    { clear -Hn Hle. destruct distance as [[|]|[|]| |[|] m e]; try discriminate; reflexivity. }
    exact (proj1 (addTrip_data v distance today st)).
Qed.

Lemma accepted_submission_is_valid_witness :
  exists v, Some "bus"%string = Some v /\ v <> ""%string
            /\ lt zero (ToNumber (VStr "12")) = true
            /\ items (snd (submit (Some "bus"%string) (Some "12"%string) "2/11/2026" blank))
               = items blank ++ [trip "2/11/2026" v (ToNumber (VStr "12"))
                                   (emissions_for v (ToNumber (VStr "12")))].
Proof.
  apply (accepted_submission_is_valid (Some "bus"%string) (Some "12"%string)
           "2/11/2026" blank).
  reflexivity.
Defined.

(** *** The progress bar, for every total *)

Lemma compare_100 x : SFcompare (ofZ 100) x = CompOpp <$> SFcompare x (ofZ 100).
Proof.
  rewrite NumFacts.ofZ_100. destruct x as [[|]|[|]| |[|] m e]; try reflexivity.
  unfold SFcompare. cbn [fmap option_fmap option_map]. f_equal.
  rewrite (Z.compare_antisym e (-46)).
  destruct (e ?= -46); try reflexivity. cbn [CompOpp].
  by rewrite Pos.compare_cont_antisym.
Qed.

Lemma min_100_cases x :
  (isNaN x = true /\ Math_min x (ofZ 100) = nan)
  \/ (isNaN x = false /\ lt x (ofZ 100) = true /\ Math_min x (ofZ 100) = x)
  \/ (isNaN x = false /\ lt x (ofZ 100) = false
      /\ le (Math_min x (ofZ 100)) (ofZ 100) = true).
Proof.
  unfold Math_min, lt, le, SFltb, SFleb. rewrite compare_100.
  destruct x as [[|]|[|]| |s m e]; try (by left); try (by right; left);
    try (by right; right).
  rewrite NumFacts.ofZ_100.
  change (isNaN (S754_finite s m e) || isNaN (S754_finite false mantissa_50 (-46)))
    with false. cbv iota.
  destruct (SFcompare (S754_finite s m e) (S754_finite false mantissa_50 (-46)))
    as [[ | | ]|] eqn:E; cbn [fmap option_fmap option_map CompOpp].
  - right; right. split; [reflexivity|]. split; [reflexivity|]. by rewrite E.
  - right; left. by repeat split.
  - right; right. by repeat split.
  - destruct s; discriminate E.
Qed.

(** X15. Whatever the total, the percentage given to the progress bar is
    NaN or at most 100. Below 100 it is [total / 50 * 100] itself:
    nothing bounds it from below, so a negative total gives a negative
    width. *)
Theorem progress_never_exceeds_100 :
  (forall total,
     isNaN (percent total) = true \/ le (percent total) (ofZ 100) = true)
  /\ (forall total,
        lt (mul (div total (ofZ 50)) (ofZ 100)) (ofZ 100) = true ->
        percent total = mul (div total (ofZ 50)) (ofZ 100)).
Proof.
  split; intros total; unfold percent;
    destruct (min_100_cases (mul (div total (ofZ 50)) (ofZ 100)))
      as [[Hn ->]|[(Hn & Hlt & ->)|(Hn & Hlt & Hle)]].
  - by left.
  - right. unfold lt, le, SFltb, SFleb in *.
    by destruct (SFcompare _ _) as [[ | | ]|].
  - by right.
  - intros Hlt. unfold lt, SFltb in Hlt.
    destruct (mul (div total (ofZ 50)) (ofZ 100)); try discriminate Hn;
      discriminate Hlt.
  - done.
  - intros Hlt'. congruence.
Qed.

Lemma progress_never_exceeds_100_witness :
  percent (ofZ 21) = mul (div (ofZ 21) (ofZ 50)) (ofZ 100)
  /\ percent (ofZ (-10)) = mul (div (ofZ (-10)) (ofZ 50)) (ofZ 100).
Proof.
  destruct progress_never_exceeds_100 as [_ Hbelow].
  split; apply Hbelow; reflexivity.
Defined.

End CalculatorMore.

(** ** Escaping (line 252) *)

Module EscapeFacts.
Import Num JS Calculator.

Lemma escape_cases a :
  (a = "&"%char /\ escape a = "&amp;"%string)
  \/ (a = "<"%char /\ escape a = "&lt;"%string)
  \/ (a = ">"%char /\ escape a = "&gt;"%string)
  \/ (Ascii.eqb a "&" = false /\ Ascii.eqb a "<" = false /\ Ascii.eqb a ">" = false
      /\ escape a = String a EmptyString).
Proof.
  unfold escape.
  destruct (Ascii.eqb_spec a "&") as [->|_]; [by left|].
  destruct (Ascii.eqb_spec a "<") as [->|_]; [by right; left|].
  destruct (Ascii.eqb_spec a ">") as [->|_]; [by right; right; left|].
  by right; right; right.
Qed.

Lemma replace_thrice_cons a s :
  replace ">" "&gt;" (replace "<" "&lt;" (replace "&" "&amp;" (String a s)))
  = escape a +:+ replace ">" "&gt;" (replace "<" "&lt;" (replace "&" "&amp;" s)).
Proof.
  destruct (escape_cases a) as [[-> ->]|[[-> ->]|[[-> ->]|(E1 & E2 & E3 & ->)]]];
    try reflexivity.
  cbn [replace]. rewrite E1. cbn [replace]. rewrite E2. cbn [replace]. by rewrite E3.
Qed.

Lemma escapeHtml_escape_all v : escapeHtml v = escape_all (ToString v).
Proof.
  unfold escapeHtml. induction (ToString v) as [|a s IH]; [reflexivity|].
  by rewrite replace_thrice_cons, IH.
Qed.

Lemma append_assoc (a b c : string) : (a +:+ b) +:+ c = a +:+ (b +:+ c).
Proof.
  induction a as [|x a IH]; [reflexivity|].
  change ((String x a +:+ b) +:+ c) with (String x ((a +:+ b) +:+ c)).
  by rewrite IH.
Qed.

Lemma escape_all_app a b : escape_all (a +:+ b) = escape_all a +:+ escape_all b.
Proof.
  induction a as [|c a IH]; [reflexivity|].
  change (String c a +:+ b) with (String c (a +:+ b)). cbn [escape_all].
  rewrite IH. by rewrite append_assoc.
Qed.

(** X16. The three replacements of [escapeHtml], made in this order,
    escape every character of the text exactly once: [&], [<] and [>]
    become their entities and no entity written by an earlier
    replacement is escaped again. So escaping goes through
    concatenation. *)
Theorem escapeHtml_escapes_each_character_once :
  (forall s, escapeHtml (VStr s) = escape_all s)
  /\ (forall a b,
        escapeHtml (VStr (a +:+ b)) = escapeHtml (VStr a) +:+ escapeHtml (VStr b)).
Proof.
  split.
  - intros s. apply (escapeHtml_escape_all (VStr s)).
  - intros a b. rewrite !escapeHtml_escape_all. apply escape_all_app.
Qed.

Lemma occurrences_app c a b :
  occurrences c (a +:+ b) = (occurrences c a + occurrences c b)%nat.
Proof.
  induction a as [|x a IH]; [reflexivity|].
  change (String x a +:+ b) with (String x (a +:+ b)). cbn [occurrences].
  rewrite IH. lia.
Qed.

Lemma escape_all_no_angle s :
  occurrences "<" (escape_all s) = 0%nat /\ occurrences ">" (escape_all s) = 0%nat.
Proof.
  induction s as [|a s [IH1 IH2]]; [by split|]. cbn [escape_all].
  rewrite !occurrences_app, IH1, IH2.
  destruct (escape_cases a) as [[-> ->]|[[-> ->]|[[-> ->]|(E1 & E2 & E3 & ->)]]];
    try (by split).
  cbn [occurrences]. by rewrite E2, E3.
Qed.

(** X17. What [escapeHtml] returns has no [<] and no [>], whatever it is
    given; so the row of a trip has the eight tags of its four cells and
    no other, whatever the fields of the trip hold. *)
Theorem row_has_only_its_own_tags (t : value) :
  (forall v, occurrences "<" (escapeHtml v) = 0%nat
             /\ occurrences ">" (escapeHtml v) = 0%nat)
  /\ occurrences "<" (row t) = 8%nat
  /\ occurrences ">" (row t) = 8%nat.
Proof.
  assert (H : forall v, occurrences "<" (escapeHtml v) = 0%nat
                        /\ occurrences ">" (escapeHtml v) = 0%nat).
  { intros v. rewrite escapeHtml_escape_all. apply escape_all_no_angle. }
  split; [exact H|]. unfold row.
  destruct (H (get t "date")) as [Hd1 Hd2].
  destruct (H (get t "vehicle")) as [Hv1 Hv2].
  destruct (H (VStr (ToString (get t "distance")))) as [Hk1 Hk2].
  destruct (H (VStr (ToString (get t "emissions")))) as [He1 He2].
  rewrite !occurrences_app, Hd1, Hd2, Hv1, Hv2, Hk1, Hk2, He1, He2.
  by split.
Qed.

Lemma escape_all_inj s1 : forall s2, escape_all s1 = escape_all s2 -> s1 = s2.
Proof.
  induction s1 as [|a1 s1 IH]; intros [|a2 s2] H; [reflexivity|..].
  - cbn [escape_all] in H.
    destruct (escape_cases a2) as [[-> E]|[[-> E]|[[-> E]|(_ & _ & _ & E)]]];
      rewrite E in H; discriminate H.
  - cbn [escape_all] in H.
    destruct (escape_cases a1) as [[-> E]|[[-> E]|[[-> E]|(_ & _ & _ & E)]]];
      rewrite E in H; discriminate H.
  - cbn [escape_all] in H.
    destruct (escape_cases a1) as [[-> Ea]|[[-> Ea]|[[-> Ea]|(A1 & A2 & A3 & Ea)]]];
    destruct (escape_cases a2) as [[-> Eb]|[[-> Eb]|[[-> Eb]|(B1 & B2 & B3 & Eb)]]];
      rewrite ?Ea, ?Eb in H; simpl in H; simplify_eq;
      try (f_equal; by apply IH); by vm_compute in *.
Qed.

(** X18. Escaping loses nothing: two texts with the same escaped form are
    the same text. *)
Theorem escapeHtml_is_injective (s1 s2 : string) :
  escapeHtml (VStr s1) = escapeHtml (VStr s2) -> s1 = s2.
Proof.
  rewrite !escapeHtml_escape_all. apply escape_all_inj.
Qed.

Lemma escapeHtml_is_injective_witness :
  ("a<b&" +:+ "c" = "a<b" +:+ "&c")%string.
Proof.
  apply (escapeHtml_is_injective ("a<b&" +:+ "c") ("a<b" +:+ "&c")). reflexivity.
Defined.

End EscapeFacts.

(** ** The theme *)

Module ThemeFacts.
Import Theme.

Lemma setTheme_agreed theme st b :
  (theme = "dark" \/ theme = "light")%string ->
  themeToggle st = Some b -> agreed (setTheme theme st).
Proof.
  intros Ht Hb. exists theme. split; [exact Ht|]. split; [reflexivity|]. split.
  - cbn [themeToggle setTheme]. by rewrite Hb.
  - apply lookup_insert_eq.
Qed.

(** X19. On a page with the toggle button, one click brings the
    attribute of the root element, the [aria-pressed] state of the button
    and the stored theme to agree on [dark] or [light]; from then on each
    click switches to the other theme, and two clicks give back the state
    as it was. *)
Theorem click_toggles_the_theme :
  (forall st b, themeToggle st = Some b -> agreed (click st))
  /\ (forall st,
        agreed st ->
        agreed (click st)
        /\ (data_theme (click st) = Some "dark"%string
            <-> data_theme st = Some "light"%string)
        /\ click (click st) = st).
Proof.
  split.
  - intros st b Hb. unfold click. rewrite Hb.
    apply (setTheme_agreed _ st b); [|exact Hb].
    destruct (data_theme st) as [t|]; [|by left].
    destruct (String.eqb t "dark"); [by right|by left].
  - intros [d tg ls] (t & Ht & Hd & Htg & Hls). cbn in Hd, Htg, Hls. subst d tg.
    split; [|split].
    + unfold click. cbn [themeToggle data_theme].
      apply (setTheme_agreed _ _ (Some (pressed t))); [|reflexivity].
      destruct (String.eqb t "dark"); [by right|by left].
    + destruct Ht as [-> | ->]; cbn; split; congruence.
    + destruct Ht as [-> | ->]; unfold click, setTheme; cbn; f_equal;
        rewrite insert_insert_eq; by apply insert_id.
Qed.

Lemma click_toggles_the_theme_witness :
  let st := {| data_theme := None; themeToggle := Some None; localStorage := ∅ |} in
  agreed (click st)
  /\ agreed (click (click st))
  /\ click (click (click st)) = click st.
Proof.
  destruct click_toggles_the_theme as [Hfirst Hnext].
  intros st.
  assert (H1 : agreed (click st)) by (apply (Hfirst st None); reflexivity).
  destruct (Hnext (click st) H1) as (H2 & _ & H3).
  split; [exact H1|]. split; [exact H2|exact H3].
Defined.

(** X20. A theme that was set is the theme of the next page load: with
    the storage [setTheme] leaves, the initial code sets the attribute of
    the root element to that theme and the button, if the page has one,
    to its pressed state, and writes nothing to the storage. The empty
    string is the exception: it is stored, and ignored at the next load. *)
Theorem theme_survives_reload (theme : string) (st p : state) :
  localStorage p = localStorage (setTheme theme st) ->
  localStorage (init p) = localStorage p
  /\ (theme <> ""%string ->
      data_theme (init p) = Some theme
      /\ themeToggle (init p) = setAttribute (pressed theme) (themeToggle p))
  /\ (theme = ""%string -> init p = p).
Proof.
  intros Hls.
  assert (Hl : localStorage p !! THEME_KEY = Some theme).
  { rewrite Hls. apply lookup_insert_eq. }
  unfold init. rewrite Hl.
  destruct (String.eqb_spec theme "") as [->|Hne]; by repeat split.
Qed.

Lemma theme_survives_reload_witness :
  let st := {| data_theme := None; themeToggle := Some None; localStorage := ∅ |} in
  let p := {| data_theme := None; themeToggle := Some None;
              localStorage := localStorage (click st) |} in
  data_theme (init p) = Some "dark"%string
  /\ themeToggle (init p) = Some (Some "true"%string).
Proof.
  intros st p.
  destruct (theme_survives_reload "dark" st p) as (_ & H & _); [reflexivity|].
  apply H. discriminate.
Defined.

End ThemeFacts.

(** ** [debounce] *)

Module DebounceFacts.
Import Debounce.
#[local] Open Scope nat_scope.

Section debounce.
Context {A : Type}.
Implicit Types (st : state A) (args : A).

Lemma call_tidy args st : tidy st -> tidy (call args st).
Proof.
  intros Ht id a. unfold call. cbn [pending t].
  rewrite lookup_insert_Some. intros [[<- _]|[Hne Hl]]; [reflexivity|].
  exfalso. unfold clearTimeout in Hl. destruct (t st) as [i|] eqn:Et.
  - apply lookup_delete_Some in Hl as [Hi Hl]. apply Ht in Hl. congruence.
  - apply Ht in Hl. congruence.
Qed.

Lemma expire_tidy id st : tidy st -> tidy (expire id st).
Proof.
  intros Ht j a. unfold expire. destruct (pending st !! id); [|by apply Ht].
  cbn [pending t]. rewrite lookup_delete_Some. intros [_ Hl]. by apply (Ht j a).
Qed.

Lemma handle_tidy e st : tidy st -> tidy (handle st e).
Proof. destruct e; [apply call_tidy|apply expire_tidy]. Qed.

Lemma run_tidy es : forall st, tidy st -> tidy (run es st).
Proof.
  induction es as [|e es IH]; intros st Ht; [exact Ht|].
  apply IH, handle_tidy, Ht.
Qed.

Lemma initial_tidy : tidy (@initial A).
Proof. intros id a. unfold initial. cbn. by rewrite lookup_empty. Qed.

Lemma call_pending args st :
  tidy st -> pending (call args st) = {[ S (timers st) := args ]}.
Proof.
  intros Ht. unfold call. cbn [pending]. rewrite <- insert_empty. f_equal.
  apply map_empty. intros j. unfold clearTimeout.
  destruct (clearTimeout (t st) (pending st) !! j) as [a|] eqn:Hl; [|
    unfold clearTimeout in Hl; exact Hl].
  exfalso. unfold clearTimeout in Hl. destruct (t st) as [i|] eqn:Et.
  - apply lookup_delete_Some in Hl as [Hi Hl]. apply Ht in Hl. congruence.
  - apply Ht in Hl. congruence.
Qed.

Lemma burst l : forall st args,
  tidy st ->
  let st' := run (Call <$> (l ++ [args])) st in
  t st' = Some (timers st + S (length l))
  /\ pending st' = {[ timers st + S (length l) := args ]}
  /\ calls st' = calls st
  /\ tidy st'.
Proof.
  induction l as [|a l IH]; intros st args Ht.
  - cbn [app fmap list_fmap run fold_left handle length].
    replace (timers st + 1) with (S (timers st)) by lia.
    split; [reflexivity|]. split; [by apply call_pending|]. split; [reflexivity|].
    by apply call_tidy.
  - cbn [app fmap list_fmap run fold_left handle length].
    destruct (IH (call a st) args (call_tidy a st Ht)) as (H1 & H2 & H3 & H4).
    cbn [timers call] in H1, H2.
    replace (timers st + S (S (length l))) with (S (timers st) + S (length l)) by lia.
    by repeat split.
Qed.

End debounce.

(** X21. However calls and expiries interleave, no timeout is pending
    but the one set by the latest call: the timeouts of earlier calls
    were cleared, and their expiry does nothing. *)
Theorem only_the_latest_timeout_is_pending {A : Type} (es : list (event A)) :
  let st := run es initial in
  tidy st
  /\ (forall id, t st <> Some id -> expire id st = st)
  /\ (forall id args, pending st !! id = Some args -> pending st = {[ id := args ]}).
Proof.
  intros st. assert (Ht : tidy st) by apply run_tidy, initial_tidy.
  split; [exact Ht|]. split.
  - intros id Hne. unfold expire.
    destruct (pending st !! id) as [a|] eqn:Hl; [|reflexivity].
    apply Ht in Hl. congruence.
  - intros id args Hl. apply map_eq. intros j.
    destruct (decide (j = id)) as [->|Hne].
    + by rewrite lookup_singleton_eq.
    + rewrite lookup_singleton_ne by congruence.
      destruct (pending st !! j) as [a|] eqn:Hj; [|reflexivity].
      apply Ht in Hj. apply Ht in Hl. congruence.
Qed.

(** X22. A burst of calls with no expiry in between applies the function
    once, to the arguments of the last call: after the burst the only
    pending timeout holds the last arguments, nothing was applied during
    the burst, and when that timeout expires the function is applied to
    them and nothing is left pending. *)
Theorem burst_applies_fn_once_to_last_arguments {A : Type} (st : state A)
    (earlier : list A) (last : A) :
  tidy st ->
  let st' := run (Call <$> (earlier ++ [last])) st in
  let id := timers st + S (length earlier) in
  t st' = Some id
  /\ pending st' = {[ id := last ]}
  /\ calls st' = calls st
  /\ calls (expire id st') = calls st ++ [last]
  /\ pending (expire id st') = ∅.
Proof.
  intros Ht. cbv zeta.
  destruct (burst earlier st last Ht) as (H1 & H2 & H3 & _). cbv zeta in H1, H2, H3.
  split; [exact H1|]. split; [exact H2|]. split; [exact H3|].
  unfold expire. rewrite H2, lookup_singleton_eq. cbn [calls pending].
  rewrite H3. split; [reflexivity|]. apply delete_singleton_eq.
Qed.

Lemma burst_applies_fn_once_to_last_arguments_witness :
  let st' := run (Call <$> (["a"%string; "b"%string] ++ ["c"%string])) initial in
  t st' = Some 3
  /\ pending st' = {[ 3 := "c"%string ]}
  /\ calls st' = []
  /\ calls (expire 3 st') = ["c"%string]
  /\ pending (expire 3 st') = ∅.
Proof.
  apply (burst_applies_fn_once_to_last_arguments initial ["a"%string; "b"%string]
           "c"%string).
  intros id a. unfold initial. cbn. by rewrite lookup_empty.
Defined.

End DebounceFacts.

(** ** Lazy loading *)

Module LazyFacts.
Import Carousel Lazy.
#[local] Open Scope nat_scope.
#[local] Set Warnings "-clear-no-such-hyp".

Lemma load_twice i : load (load i) = load i.
Proof.
  unfold load. destruct (data_src i) as [d|] eqn:E; [|by rewrite E].
  destruct (String.eqb d "") eqn:Ed; [by rewrite E, Ed|reflexivity].
Qed.

Lemma load_without_data_src i : data_src i = None -> load i = i.
Proof. unfold load. by intros ->. Qed.

Lemma callback_snoc entries e st :
  callback (entries ++ [e]) st = on_entry (callback entries st) e.
Proof. unfold callback. by rewrite fold_left_app. Qed.

Lemma callback_spec entries : forall st id,
  supported (callback entries st) = supported st
  /\ ((id, true) ∈ entries ->
      images (callback entries st) !! id = load <$> images st !! id
      /\ id ∉ observed (callback entries st))
  /\ ((id, true) ∉ entries ->
      images (callback entries st) !! id = images st !! id
      /\ (id ∈ observed (callback entries st) <-> id ∈ observed st)).
Proof.
  induction entries as [|[j b] entries IH] using rev_ind; intros st id.
  - split; [reflexivity|]. split; [by intros ?%elem_of_nil|done].
  - rewrite callback_snoc. destruct (IH st id) as (Hs & Hin & Hout).
    unfold on_entry. cbn [fst snd]. destruct b.
    + cbn [supported images observed]. split; [exact Hs|].
      destruct (decide (j = id)) as [->|Hne].
      * split; [|intros Hn; exfalso; apply Hn; set_solver].
        intros _. split; [|set_solver].
        rewrite lookup_alter_eq.
        destruct (decide ((id, true) ∈ entries)) as [Hi|Hi].
        -- destruct (Hin Hi) as [-> _]. rewrite <- option_fmap_compose.
           apply option_fmap_ext. intros i. apply load_twice.
        -- by destruct (Hout Hi) as [-> _].
      * rewrite lookup_alter_ne by exact Hne. split.
        -- intros Hi. assert (Hi' : (id, true) ∈ entries) by set_solver.
           destruct (Hin Hi') as [-> Hno]. split; [reflexivity|set_solver].
        -- intros Hi. assert (Hi' : (id, true) ∉ entries) by set_solver.
           destruct (Hout Hi') as [-> Hobs]. split; [reflexivity|]. set_solver.
    + split; [exact Hs|]. split.
      * intros Hi. apply Hin. set_solver.
      * intros Hi. apply Hout. set_solver.
Qed.

(** X23. After the observer's callback, every image reported as
    intersecting has its deferred source as its source, if it had one
    that is not empty, and is no longer observed, however often and in
    whatever order it was reported; every other image is as it was,
    observed or not as before. *)
Theorem callback_loads_what_intersects (entries : list (nat * bool)) (st : state)
    (id : nat) :
  ((id, true) ∈ entries ->
   images (callback entries st) !! id = load <$> images st !! id
   /\ id ∉ observed (callback entries st))
  /\ ((id, true) ∉ entries ->
      images (callback entries st) !! id = images st !! id
      /\ (id ∈ observed (callback entries st) <-> id ∈ observed st)).
Proof. exact (proj2 (callback_spec entries st id)). Qed.

(** X24. With [IntersectionObserver], once every image that
    [observeLazyImages] put under observation has been reported as
    intersecting, no image is observed any more and every image under
    the root has its deferred source, when it had one that is not empty,
    as its source. Without [IntersectionObserver] nothing is observed
    and nothing is ever loaded this way. *)
Theorem observed_images_are_loaded_once_seen (root : list nat)
    (entries : list (nat * bool)) (st : state) :
  observed st = ∅ ->
  (forall id, id ∈ observed (observeLazyImages root st) -> (id, true) ∈ entries) ->
  let st' := callback entries (observeLazyImages root st) in
  observed st' = ∅
  /\ (supported st = true ->
      forall id i, id ∈ root -> images st !! id = Some i ->
                   images st' !! id = Some (load i))
  /\ (supported st = false -> observeLazyImages root st = st).
Proof.
  intros Hobs Hall. cbv zeta. split; [|split].
  - apply set_eq. intros id. split; [|set_solver]. intros Hid. exfalso.
    destruct (callback_spec entries (observeLazyImages root st) id) as (_ & Hin & Hout).
    destruct (decide ((id, true) ∈ entries)) as [Hi|Hi].
    + by destruct (Hin Hi) as [_ Hno].
    + destruct (Hout Hi) as [_ Hiff]. apply Hi, Hall, Hiff, Hid.
  - intros Hsup id i Hroot Hi.
    destruct (callback_spec entries (observeLazyImages root st) id) as (_ & Hin & Hout).
    assert (Himg : images (observeLazyImages root st) = images st).
    { unfold observeLazyImages. by rewrite Hsup. }
    rewrite Himg in Hin, Hout.
    destruct (decide ((id, true) ∈ entries)) as [He|He].
    + destruct (Hin He) as [-> _]. by rewrite Hi.
    + destruct (Hout He) as [-> _]. rewrite Hi. f_equal. symmetry.
      apply load_without_data_src.
      destruct (data_src i) as [d|] eqn:Ed; [|reflexivity].
      exfalso. apply He, Hall. unfold observeLazyImages. rewrite Hsup.
      cbn [observed]. apply elem_of_union_r, elem_of_list_to_set, list_elem_of_filter.
      split; [|exact Hroot]. rewrite Hi. cbn. rewrite Ed. by eexists.
  - intros Hsup. unfold observeLazyImages. by rewrite Hsup.
Qed.

Lemma observed_images_are_loaded_once_seen_witness :
  let st := {| supported := true;
               images := {[ 0 := {| src := None; data_src := Some "a.jpg"%string |};
                            1 := {| src := Some "b.jpg"%string; data_src := None |} ]};
               observed := ∅ |} in
  let st' := callback [(0, true)] (observeLazyImages [0; 1] st) in
  observed st' = ∅
  /\ (supported st = true ->
      forall id i, id ∈ [0; 1] -> images st !! id = Some i ->
                   images st' !! id = Some (load i))
  /\ (supported st = false -> observeLazyImages [0; 1] st = st).
Proof.
  intros st.
  apply (observed_images_are_loaded_once_seen [0; 1] [(0, true)] st).
  - reflexivity.
  - intros id Hid. unfold observeLazyImages in Hid. cbn [supported observed st] in Hid.
    apply elem_of_union in Hid as [Hid|Hid]; [by apply elem_of_empty in Hid|].
    apply elem_of_list_to_set, list_elem_of_filter in Hid as [Hsrc Hroot].
    apply elem_of_cons in Hroot as [->|Hroot]; [apply list_elem_of_here|].
    apply list_elem_of_singleton in Hroot as ->.
    vm_compute in Hsrc. by destruct Hsrc.
Defined.

End LazyFacts.

(** ** The generated style *)

Module SrOnlyFacts.
Import SrOnly.

Lemma filter_generated_none styles :
  existsb generated styles = false -> List.filter generated styles = [].
Proof.
  induction styles as [|s styles IH]; [reflexivity|]. cbn [existsb List.filter].
  intros [Hs Hr]%orb_false_elim. by rewrite Hs, IH.
Qed.

Lemma filter_generated_some styles :
  existsb generated styles = true -> (1 <= length (List.filter generated styles))%nat.
Proof.
  induction styles as [|s styles IH]; [discriminate|]. cbn [existsb List.filter].
  destruct (generated s); [cbn; lia|]. exact IH.
Qed.

(** X25. [ensureSrOnly] leaves the styles of the document as they are and
    adds at most one, at the end; afterwards a style generated by this
    file exists, and running the function again changes nothing. The
    number of generated styles goes from 0 to 1 and otherwise stays. *)
Theorem ensureSrOnly_adds_the_style_once (styles : list style) :
  existsb generated (ensureSrOnly styles) = true
  /\ ensureSrOnly (ensureSrOnly styles) = ensureSrOnly styles
  /\ (exists added, ensureSrOnly styles = styles ++ added /\ (length added <= 1)%nat)
  /\ length (List.filter generated (ensureSrOnly styles))
     = Nat.max 1 (length (List.filter generated styles)).
Proof.
  assert (Hex : existsb generated (ensureSrOnly styles) = true).
  { unfold ensureSrOnly. destruct (existsb generated styles) eqn:E; [exact E|].
    rewrite existsb_app. cbn. apply orb_true_r. }
  split; [exact Hex|]. split.
  { unfold ensureSrOnly at 1. by rewrite Hex. }
  unfold ensureSrOnly. destruct (existsb generated styles) eqn:E.
  - split.
    + exists []. split; [by rewrite app_nil_r|cbn; lia].
    + pose proof (filter_generated_some styles E). lia.
  - split.
    + eexists. split; [reflexivity|]. cbn. lia.
    + rewrite List.filter_app, (filter_generated_none styles E). reflexivity.
Qed.

End SrOnlyFacts.

(** ** The quiz *)

Module QuizFacts.
Import Quiz.
#[local] Set Warnings "-clear-no-such-hyp".

(** X26. After a click on a quiz button the feedback shows the message
    of that button alone, and has the class [incorrect] exactly when the
    button is not marked correct; its other classes are as before. What
    was clicked earlier leaves no trace: the last click wins. The handler
    fails exactly when the question or its feedback element is missing. *)
Theorem last_click_decides_the_feedback (a1 a2 : option string) (f : feedback) :
  ("incorrect"%string ∈ classList (click a2 f) <-> correct a2 = false)
  /\ (forall c, c <> "incorrect"%string ->
                (c ∈ classList (click a2 f) <-> c ∈ classList f))
  /\ click a2 (click a1 f) = click a2 f
  /\ (forall question,
        handler a2 question = None <-> question = None \/ question = Some None).
Proof.
  split; [|split; [|split]].
  - unfold click. cbn [classList]. destruct (correct a2); set_solver.
  - intros c Hc. unfold click. cbn [classList]. destruct (correct a2); set_solver.
  - unfold click. cbn [classList textContent]. f_equal.
    destruct (correct a2), (correct a1); apply set_eq; intros c;
      destruct (decide (c = "incorrect"%string)); set_solver.
  - intros [[g|]|]; cbn; split; try discriminate; try (intros [H|H]; discriminate H);
      auto.
Qed.

End QuizFacts.

(** ** The video *)

Module VideoFacts.
Import Video.

Lemma append_cons c (a b : string) : String c a +:+ b = String c (a +:+ b).
Proof. reflexivity. Qed.

Lemma append_empty (b : string) : "" +:+ b = b.
Proof. reflexivity. Qed.

Lemma replace_first_eq pat by_ s :
  replace_first pat by_ s
  = match strip_prefix pat s with
    | Some rest => by_ +:+ rest
    | None => match s with
              | EmptyString => EmptyString
              | String c s' => String c (replace_first pat by_ s')
              end
    end.
Proof. by destruct s. Qed.

Lemma strip_prefix_Some pat : forall s r, strip_prefix pat s = Some r <-> s = pat +:+ r.
Proof.
  induction pat as [|c pat IH]; intros s r.
  - rewrite append_empty. cbn. split; congruence.
  - rewrite append_cons. destruct s as [|d s]; cbn; [split; discriminate|].
    destruct (Ascii.eqb_spec c d) as [->|Hne].
    + rewrite IH. split; [by intros ->|by intros [= ->]].
    + split; [discriminate|]. intros [= -> _]. by destruct Hne.
Qed.

Lemma length_append (a b : string) :
  String.length (a +:+ b) = (String.length a + String.length b)%nat.
Proof.
  induction a as [|c a IH]; [reflexivity|]. rewrite append_cons. cbn. by rewrite IH.
Qed.

Lemma prefix_of_append pat : forall r x y,
  pat +:+ r = x +:+ y -> (String.length pat <= String.length x)%nat ->
  exists z, x = pat +:+ z.
Proof.
  induction pat as [|c pat IH]; intros r x y He Hl; [by exists x|].
  destruct x as [|d x]; [cbn in Hl; lia|].
  rewrite !append_cons in He. injection He as <- He. cbn in Hl.
  destruct (IH r x y He ltac:(lia)) as [z ->]. by exists z.
Qed.

Lemma occurs_cons pat c s : occurs pat s -> occurs pat (String c s).
Proof. intros (a & b & ->). by exists (String c a), b. Qed.

Lemma unmute_changes r : "mute=0" +:+ r <> "mute=1" +:+ r.
Proof. rewrite !append_cons. intros [=]. Qed.

Lemma unmute_length s : String.length (unmute s) = String.length s.
Proof.
  unfold unmute. induction s as [|c s IH]; [reflexivity|].
  rewrite replace_first_eq.
  destruct (strip_prefix _ (String c s)) as [r|] eqn:E.
  - apply strip_prefix_Some in E. rewrite E. by rewrite !length_append.
  - cbn. by rewrite IH.
Qed.

Lemma unmute_fixed s : unmute s = s <-> ~ occurs "mute=1" s.
Proof.
  unfold unmute. induction s as [|c s IH].
  - split; [|reflexivity]. intros _ (a & b & H).
    destruct a; discriminate H.
  - rewrite replace_first_eq.
    destruct (strip_prefix _ (String c s)) as [r|] eqn:E.
    + apply strip_prefix_Some in E. rewrite E. split.
      * intros H. by apply unmute_changes in H.
      * intros H. destruct H. by exists ""%string, r.
    + split.
      * intros [= H] (a & b & Hs). apply IH in H.
        destruct a as [|d a].
        -- rewrite append_empty in Hs. apply strip_prefix_Some in Hs. congruence.
        -- rewrite append_cons in Hs. injection Hs as -> ->. apply H. by exists a, b.
      * intros H. f_equal. apply IH. intros Ho. by apply H, occurs_cons.
Qed.

Lemma unmute_first a : forall b,
  ~ occurs "mute=1" (a +:+ "mute=") ->
  unmute (a +:+ "mute=1" +:+ b) = a +:+ "mute=0" +:+ b.
Proof.
  unfold unmute. induction a as [|c a IH]; intros b Hno.
  - rewrite replace_first_eq, !append_empty.
    by rewrite (proj2 (strip_prefix_Some "mute=1" ("mute=1" +:+ b) b) eq_refl).
  - rewrite replace_first_eq, !(append_cons c a).
    destruct (strip_prefix _ (String c (a +:+ "mute=1" +:+ b))) as [r|] eqn:E.
    + exfalso. apply strip_prefix_Some in E.
      assert (E' : "mute=1" +:+ r = (String c a +:+ "mute=") +:+ ("1" +:+ b)).
      { rewrite <- E, EscapeFacts.append_assoc. reflexivity. }
      apply prefix_of_append in E' as [z Hz].
      * apply Hno. exists ""%string, z. exact Hz.
      * rewrite length_append. cbn. lia.
    + f_equal. apply IH. intros Ho. apply Hno. rewrite append_cons.
      by apply occurs_cons.
Qed.

(** X27. The first click in the body replaces the first [mute=1] of the
    frame's address by [mute=0] and nothing else: the address keeps its
    length, it is unchanged exactly when [mute=1] does not occur in it,
    and what precedes and follows the first occurrence stays. Later
    clicks change nothing, and without the frame no click does. *)
Theorem first_click_unmutes_the_video :
  (forall s, String.length (unmute s) = String.length s)
  /\ (forall s, unmute s = s <-> ~ occurs "mute=1" s)
  /\ (forall a b,
        ~ occurs "mute=1" (a +:+ "mute=") ->
        unmute (a +:+ "mute=1" +:+ b) = a +:+ "mute=0" +:+ b)
  /\ (forall src,
        iframe (click (ready src)) = unmute <$> src
        /\ click (click (ready src)) = click (ready src)).
Proof.
  split; [exact unmute_length|]. split; [exact unmute_fixed|].
  split; [exact unmute_first|].
  intros [s|]; by split.
Qed.

Lemma first_click_unmutes_the_video_witness :
  unmute ("https://www.youtube.com/embed/v?autoplay=1&" +:+ "mute=1" +:+ "&loop=1")
  = "https://www.youtube.com/embed/v?autoplay=1&" +:+ "mute=0" +:+ "&loop=1".
Proof.
  destruct first_click_unmutes_the_video as (_ & Hfixed & Hfirst & _).
  apply Hfirst. apply Hfixed. reflexivity.
Defined.

End VideoFacts.
